(** * trace_to_csv: a shallow embedding of util/tracing/trace_to_csv.c

    The program converts a Lingua Franca binary trace file (.lft) into a
    comma-separated text file.  This development embeds [get_description],
    [read_header], [read_trace] and the part of [main] that runs once both
    files are open, and states the properties of the decoder over them.

    Conventions.
    - C integers are [Z] with the wrap-around written out ([wrap], [to_size_t]).
    - The data model is little-endian LP64: [int] is 4 bytes, [instant_t]
      ([long long]) and pointers are 8 bytes.
    - Behaviour the C standard leaves undefined (a read through a null pointer,
      an index outside an array, a write past a buffer) is an explicit
      [Undefined] outcome, so that theorems can tell it from [exit].
    - [reactor.h] and [trace.h] are not part of the sources at hand: the
      constant [TRACE_BUFFER_CAPACITY], the table [trace_event_names] and the
      macro [_LF_TRACE_FAILURE] are parameters of the section below; the layout
      of [trace_record_t] follows the field list of the file format. *)

From Stdlib Require Import ZArith String Ascii List Bool Lia.
From Stdlib.Strings Require Import Byte.
From Stdlib Require Import DecimalString DecimalPos DecimalZ.
Import ListNotations.

Open Scope Z_scope.

(** ** Machine integers *)

(** Two's complement reduction of [z] to a signed [w]-bit integer. *)
Definition wrap (w : Z) (z : Z) : Z :=
  (z + 2 ^ (w - 1)) mod 2 ^ w - 2 ^ (w - 1).

(** Conversion of a C integer to [size_t] (unsigned, 64 bits). *)
Definition to_size_t (z : Z) : Z := z mod 2 ^ 64.

(** Subtraction on [instant_t], a signed 64-bit integer. *)
Definition sub_instant (a b : Z) : Z := wrap 64 (a - b).

Definition sizeof_int : Z := 4.
Definition sizeof_instant_t : Z := 8.
Definition sizeof_pointer : Z := 8.
Definition sizeof_char : Z := 1.

(** ** Bytes in memory *)

Definition byte_value (b : byte) : Z := Z.of_N (Byte.to_N b).

(** The unsigned integer stored little-endian in [bs]. *)
Fixpoint le_unsigned (bs : list byte) : Z :=
  match bs with
  | [] => 0
  | b :: tl => byte_value b + 256 * le_unsigned tl
  end.

Definition decode_int (bs : list byte) : Z := wrap 32 (le_unsigned bs).
Definition decode_instant (bs : list byte) : Z := wrap 64 (le_unsigned bs).
Definition decode_pointer (bs : list byte) : Z := le_unsigned bs.

(** The byte whose value is [z mod 256]. *)
Definition byte_of_Z (z : Z) : byte :=
  match Byte.of_N (Z.to_N (z mod 256)) with
  | Some b => b
  | None => x00
  end.

(** [n] bytes holding [z] little-endian (two's complement for a negative [z]):
    how the producing runtime lays an integer out in the file. *)
Fixpoint le_bytes (n : nat) (z : Z) : list byte :=
  match n with
  | O => []
  | S n' => byte_of_Z z :: le_bytes n' (z / 256)
  end.

(** [len] bytes of [mem] from offset [off]; memory past the end of the list is
    zero (static storage that was never written). *)
Definition slice (off len : nat) (mem : list byte) : list byte :=
  firstn len (skipn off mem ++ repeat x00 len).

(** [bs] written at the start of [mem]. *)
Definition overwrite (bs mem : list byte) : list byte :=
  bs ++ skipn (length bs) mem.

(** ** Input streams

    A [FILE] open for reading: the bytes not consumed yet and the two
    indicators of the stream.  [f_faulty] says what the device does once
    [f_data] is used up: report the end of the file, or a read error. *)
Record FILE : Type := mkFILE {
  f_data : list byte;
  f_faulty : bool;
  f_eof : bool;
  f_err : bool
}.

Definition feof (f : FILE) : bool := f_eof f.

(** [fread(ptr, size, nmemb, stream)]: the number of complete items read, the
    bytes transferred to [ptr], and the stream afterwards.  When fewer than
    [size * nmemb] bytes are left, all of them are transferred and the
    end-of-file (or error) indicator is set.  This is the function as the C
    standard describes it: the product is not reduced to a [size_t], so a
    request for more bytes than an address space holds (the one a negative
    batch length makes) is a request for all that is left, where a C library
    may stop earlier and flag an error. *)
Definition fread (size nmemb : Z) (f : FILE) : Z * list byte * FILE :=
  let want := size * nmemb in
  let avail := Z.of_nat (length (f_data f)) in
  if want =? 0 then (0, [], f)
  else if want <=? avail then
    (nmemb, firstn (Z.to_nat want) (f_data f),
     mkFILE (skipn (Z.to_nat want) (f_data f)) (f_faulty f) (f_eof f) (f_err f))
  else
    (avail / size, f_data f,
     mkFILE [] (f_faulty f)
            (f_eof f || negb (f_faulty f)) (f_err f || f_faulty f)).

(** ** Records and the symbol table *)

(** [object_description_t]: a traced object and its description.  A pointer is
    its address; [None] is the null [char*] that [calloc] leaves in an entry
    whose description has not been stored yet. *)
Record object_description_t : Type := mkDescription {
  od_object : Z;
  od_description : option string
}.

(** Modelled from the spec: [trace_record_t] is declared in trace.h, which is
    not among the sources; the fields, their order and their widths are those
    the file format lists for a record. *)
Record trace_record_t : Type := mkRecord {
  event_type : Z;
  self_struct : Z;
  reaction_number : Z;
  worker : Z;
  logical_time : Z;
  microstep : Z;
  physical_time : Z
}.

(** Modelled from the spec: the size of [trace_record_t] with its fields
    naturally aligned (4 bytes of padding follow [event_type] and
    [microstep]). *)
Definition sizeof_trace_record_t : Z := 48.

(** The record held in the [sizeof_trace_record_t] bytes [bs]. *)
Definition decode_record (bs : list byte) : trace_record_t :=
  mkRecord (decode_int (slice 0 4 bs))
           (decode_pointer (slice 8 8 bs))
           (decode_int (slice 16 4 bs))
           (decode_int (slice 20 4 bs))
           (decode_instant (slice 24 8 bs))
           (decode_int (slice 32 4 bs))
           (decode_instant (slice 40 8 bs)).

(** The bytes of a record as the runtime writes them (padding zeroed). *)
Definition encode_record (r : trace_record_t) : list byte :=
  le_bytes 4 (event_type r) ++ le_bytes 4 0 ++
  le_bytes 8 (self_struct r) ++
  le_bytes 4 (reaction_number r) ++ le_bytes 4 (worker r) ++
  le_bytes 8 (logical_time r) ++
  le_bytes 4 (microstep r) ++ le_bytes 4 0 ++
  le_bytes 8 (physical_time r).

(** ** The state of the program *)

(** What the program prints on [stderr]. *)
Inductive diagnostic : Type :=
| MemoryAllocationFailure
| FailedToReadTraceLength
| TraceLengthExceedsCapacity (trace_length : Z).

(** The globals of the program, the two open files and the allocator.
    - [csv_file] holds the texts written by the successive [fprintf] calls.
    - [object_descriptions] is [None] for a null pointer; otherwise it holds
      the entries stored so far, and the entries of the array past them are
      the zeroed ones [calloc] returned.
    - [trace] is the record buffer as bytes; bytes past the end of the list
      are zero.
    - [heap] is the number of bytes the allocator can still hand out. *)
Record world : Type := mkWorld {
  trace_file : FILE;
  csv_file : list string;
  stderr : list diagnostic;
  start_time : Z;
  object_descriptions : option (list object_description_t);
  object_descriptions_size : Z;
  trace : list byte;
  heap : Z
}.

Definition set_trace_file (f : FILE) (w : world) : world :=
  mkWorld f (csv_file w) (stderr w) (start_time w) (object_descriptions w)
          (object_descriptions_size w) (trace w) (heap w).

Definition fprintf_csv (s : string) (w : world) : world :=
  mkWorld (trace_file w) (csv_file w ++ [s]) (stderr w) (start_time w)
          (object_descriptions w) (object_descriptions_size w) (trace w) (heap w).

Definition fprintf_stderr (d : diagnostic) (w : world) : world :=
  mkWorld (trace_file w) (csv_file w) (stderr w ++ [d]) (start_time w)
          (object_descriptions w) (object_descriptions_size w) (trace w) (heap w).

Definition set_start_time (t : Z) (w : world) : world :=
  mkWorld (trace_file w) (csv_file w) (stderr w) t (object_descriptions w)
          (object_descriptions_size w) (trace w) (heap w).

Definition set_object_descriptions
    (t : option (list object_description_t)) (w : world) : world :=
  mkWorld (trace_file w) (csv_file w) (stderr w) (start_time w) t
          (object_descriptions_size w) (trace w) (heap w).

Definition set_object_descriptions_size (n : Z) (w : world) : world :=
  mkWorld (trace_file w) (csv_file w) (stderr w) (start_time w)
          (object_descriptions w) n (trace w) (heap w).

Definition set_trace (bs : list byte) (w : world) : world :=
  mkWorld (trace_file w) (csv_file w) (stderr w) (start_time w)
          (object_descriptions w) (object_descriptions_size w) bs (heap w).

Definition set_heap (n : Z) (w : world) : world :=
  mkWorld (trace_file w) (csv_file w) (stderr w) (start_time w)
          (object_descriptions w) (object_descriptions_size w) (trace w) n.

(** The state in which [main] finds the program once both files are open. *)
Definition initial_world (input : FILE) (memory : Z) : world :=
  mkWorld input [] [] 0 None 0 [] memory.

(** ** Outcomes *)

Inductive fault : Type :=
| NullPointer
| IndexOutOfRange
| BufferOverflow.

(** How a call ends: it returns a value, the process exits with a status, or
    the behaviour is undefined. *)
Inductive outcome (A : Type) : Type :=
| Return (a : A) (w : world)
| Exit (status : Z) (w : world)
| Undefined (f : fault) (w : world).

Arguments Return {A} a w.
Arguments Exit {A} status w.
Arguments Undefined {A} f w.

Definition bind {A B : Type} (m : outcome A) (k : A -> world -> outcome B)
  : outcome B :=
  match m with
  | Return a w => k a w
  | Exit s w => Exit s w
  | Undefined f w => Undefined f w
  end.

Notation "'do' ( x , w ) <- m ; k" := (bind m (fun x w => k))
  (at level 10, x name, w name, m at level 100, k at level 200).

(** The state an outcome leaves behind. *)
Definition final_world {A : Type} (o : outcome A) : world :=
  match o with
  | Return _ w => w
  | Exit _ w => w
  | Undefined _ w => w
  end.

(** ** The allocator *)

(** [malloc(n)]: [None] is a null result. *)
Definition malloc (n : Z) (w : world) : option world :=
  if n <=? heap w then Some (set_heap (heap w - n) w) else None.

(** [calloc(nmemb, size)]: null when the product does not fit [size_t]. *)
Definition calloc (nmemb size : Z) (w : world) : option world :=
  if 2 ^ 64 <=? nmemb * size then None else malloc (nmemb * size) w.

(** ** Formatting *)

(** What [%d] and [%lld] print. *)
Definition decimal (z : Z) : string := NilZero.string_of_int (Z.to_int z).

(** The integer a decimal text stands for: what a reader of the output
    takes a numeric column to be. *)
Definition read_decimal (s : string) : option Z :=
  option_map Z.of_int (NilZero.int_of_string s).

(** [snprintf(buf, size, "%d", z)]: at most [size - 1] characters are kept. *)
Definition snprintf_d (size : nat) (z : Z) : string :=
  substring 0 (size - 1) (decimal z).

Definition newline : string := String (ascii_of_nat 10) EmptyString.

(** The text of ["%s, %s, %s, %d, %lld, %d, %lld\n"] for the given arguments. *)
Definition csv_line (event reactor reaction : string)
    (worker_ elapsed_logical microstep_ elapsed_physical : Z) : string :=
  (event ++ ", " ++ reactor ++ ", " ++ reaction ++ ", " ++
   decimal worker_ ++ ", " ++ decimal elapsed_logical ++ ", " ++
   decimal microstep_ ++ ", " ++ decimal elapsed_physical ++ newline)%string.

Definition csv_header : string :=
  ("Event, Reactor, Reaction, Worker, Elapsed Logical Time, Microstep, Elapsed Physical Time"
   ++ newline)%string.

(** ** get_description *)

Definition NO_DESCRIPTION_FOUND : string := "NO DESCRIPTION FOUND".

(** The loop of [get_description] over the [n] entries of the array that
    starts with [table]: the description pointer of the first entry whose
    object is [object].  An entry past [table] is zeroed: its object and its
    description are null. *)
Fixpoint scan_descriptions (table : list object_description_t) (n : Z)
    (object : Z) : option string :=
  if n <=? 0 then Some NO_DESCRIPTION_FOUND
  else match table with
       | [] => if object =? 0 then None else Some NO_DESCRIPTION_FOUND
       | e :: rest =>
           if od_object e =? object then od_description e
           else scan_descriptions rest (n - 1) object
       end.

(** [get_description(object)]: the [char*] returned ([None] when null), or the
    fault of reading through a null [object_descriptions]. *)
Definition get_description (w : world) (object : Z) : fault + option string :=
  if object_descriptions_size w <=? 0 then inr (Some NO_DESCRIPTION_FOUND)
  else match object_descriptions w with
       | None => inl NullPointer
       | Some table =>
           inr (scan_descriptions table (object_descriptions_size w) object)
       end.

(** [object_descriptions\[i\]] updated by [g] in the array that starts with
    [table] (a zeroed entry is [mkDescription 0 None]). *)
Fixpoint update_entry (i : nat)
    (g : object_description_t -> object_description_t)
    (table : list object_description_t) : list object_description_t :=
  match i, table with
  | O, [] => [g (mkDescription 0 None)]
  | O, e :: rest => g e :: rest
  | S i', [] => mkDescription 0 None :: update_entry i' g []
  | S i', e :: rest => e :: update_entry i' g rest
  end.

Definition update_description (i : nat)
    (g : object_description_t -> object_description_t) (w : world) : world :=
  match object_descriptions w with
  | Some table => set_object_descriptions (Some (update_entry i g table)) w
  | None => w
  end.

(** The text of the bytes of a description. *)
Definition string_of_bytes (bs : list byte) : string :=
  string_of_list_ascii (map ascii_of_byte bs).

(** The bytes of a null-terminated string. *)
Definition bytes_of_string (s : string) : list byte :=
  map byte_of_ascii (list_ascii_of_string s) ++ [x00].

(** [trace\[i\]]. *)
Definition trace_record (w : world) (i : Z) : trace_record_t :=
  decode_record
    (slice (Z.to_nat (sizeof_trace_record_t * i))
           (Z.to_nat sizeof_trace_record_t) (trace w)).

(** The lines 169-173 of read_trace: the text [reaction_name] points to.
    [malloc(4)] is never freed; a null result makes [snprintf] write through a
    null pointer. *)
Definition reaction_name (r : trace_record_t) (w : world) : outcome string :=
  if 0 <=? reaction_number r then
    match malloc 4 w with
    | Some w' => Return (snprintf_d 4 (reaction_number r)) w'
    | None => Undefined NullPointer w
    end
  else Return "none"%string w.

Definition BUFFER_SIZE : Z := 1024.

(** The [while] loop of read_header that reads a description into [buffer]:
    [room] is [BUFFER_SIZE - 1 - description_length].  The result is the text
    accumulated, or [None] when a read fails, and the stream afterwards. *)
Fixpoint read_description (room : nat) (character : byte) (f : FILE)
  : option (list byte) * FILE :=
  if byte_value character =? 0 then (Some [], f)
  else match room with
       | O => (Some [], f)
       | S room' =>
           let '(items_read, bs, f') := fread sizeof_char 1 f in
           if negb (items_read =? 1) then (None, f')
           else
             let '(r, f'') := read_description room' (hd x00 bs) f' in
             (option_map (cons character) r, f'')
       end.

Section TraceToCsv.

(** What trace.h supplies: the capacity of the record buffer, the table of
    event names, and what the macro [_LF_TRACE_FAILURE] makes read_header do
    (the value it returns, or the exit it takes). *)
Variable TRACE_BUFFER_CAPACITY : Z.
Variable trace_event_names : list string.
Variable LF_TRACE_FAILURE : world -> outcome Z.

(** [trace_event_names\[e\]], [None] when [e] is not an index of the table. *)
Definition event_name (e : Z) : option string :=
  if e <? 0 then None else nth_error trace_event_names (Z.to_nat e).

(** A [return] in read_header, whose result type is [size_t]. *)
Definition trace_failure (w : world) : outcome Z :=
  do (v, w') <- LF_TRACE_FAILURE w; Return (to_size_t v) w'.

(** The [for] loop of read_header from entry [i] on, with [n] entries to go,
    and the [return] after it. *)
Fixpoint read_entries (n : nat) (i : nat) (w : world) : outcome Z :=
  match n with
  | O => Return (to_size_t (object_descriptions_size w)) w
  | S n' =>
      let '(items_read, bs, f) := fread sizeof_pointer 1 (trace_file w) in
      let w := set_trace_file f w in
      if negb (items_read =? 1) then trace_failure w
      else
        let object := decode_pointer bs in
        let w :=
          update_description i (fun e => mkDescription object (od_description e)) w in
        let '(items_read, bs, f) := fread sizeof_char 1 (trace_file w) in
        let w := set_trace_file f w in
        if negb (items_read =? 1) then trace_failure w
        else
          let '(r, f) :=
            read_description (Z.to_nat (BUFFER_SIZE - 1)) (hd x00 bs) (trace_file w) in
          let w := set_trace_file f w in
          match r with
          | None => trace_failure w
          | Some buffer =>
              let description_length := Z.of_nat (length buffer) + 1 in
              match malloc description_length w with
              | None => Undefined NullPointer w
              | Some w =>
                  let w :=
                    update_description i
                      (fun e => mkDescription (od_object e)
                                              (Some (string_of_bytes buffer))) w in
                  read_entries n' (S i) w
              end
          end
  end.

(** [read_header(trace_file)].  The texts it prints on [stdout] are not part
    of the state.  Where the read of [start_time] or of
    [object_descriptions_size] is short, the bytes that were read are in the
    variable, over its previous ones, when the macro takes over. *)
Definition read_header (w : world) : outcome Z :=
  let '(items_read, bs, f) := fread sizeof_instant_t 1 (trace_file w) in
  let w := set_trace_file f w in
  if negb (items_read =? 1) then
    trace_failure
      (set_start_time (decode_instant (overwrite bs (le_bytes 8 (start_time w)))) w)
  else
    let w := set_start_time (decode_instant bs) w in
    let '(items_read, bs, f) := fread sizeof_int 1 (trace_file w) in
    let w := set_trace_file f w in
    if negb (items_read =? 1) then
      trace_failure
        (set_object_descriptions_size
           (decode_int (overwrite bs (le_bytes 4 (object_descriptions_size w)))) w)
    else
      let w := set_object_descriptions_size (decode_int bs) w in
      match calloc (to_size_t (object_descriptions_size w)) sizeof_trace_record_t w with
      | None =>
          Return (to_size_t (-1))
                 (fprintf_stderr MemoryAllocationFailure
                                 (set_object_descriptions None w))
      | Some w =>
          let w := set_object_descriptions (Some []) w in
          read_entries (Z.to_nat (object_descriptions_size w)) 0 w
      end.

(** The body of the [for] loop of read_trace for the record [trace\[i\]]. *)
Definition write_line (i : Z) (w : world) : outcome unit :=
  let r := trace_record w i in
  do (name, w) <- reaction_name r w;
  match event_name (event_type r) with
  | None => Undefined IndexOutOfRange w
  | Some event =>
      match get_description w (self_struct r) with
      | inl f => Undefined f w
      | inr None => Undefined NullPointer w
      | inr (Some description) =>
          Return tt
            (fprintf_csv
               (csv_line event description name (worker r)
                         (sub_instant (logical_time r) (start_time w))
                         (microstep r)
                         (sub_instant (physical_time r) (start_time w)))
               w)
      end
  end.

(** The [for] loop of read_trace from [i] on, with [n] iterations to go. *)
Fixpoint write_lines (n : nat) (i : Z) (w : world) : outcome unit :=
  match n with
  | O => Return tt w
  | S n' => do (_, w) <- write_line i w; write_lines n' (i + 1) w
  end.

(** [read_trace(trace_file, csv_file)].  The block read stores the bytes it
    transfers in [trace], those of an incomplete last record included, and
    writes past the buffer if more than its size arrive.  [items_read] is an
    [int] to which a [size_t] is added. *)
Definition read_trace (w : world) : outcome Z :=
  let '(items_read, bs, f) := fread sizeof_int 1 (trace_file w) in
  let w := set_trace_file f w in
  if negb (items_read =? 1) then
    if feof (trace_file w) then Return 0 w
    else Exit 3 (fprintf_stderr FailedToReadTraceLength w)
  else
    let trace_length := decode_int bs in
    if trace_length >? TRACE_BUFFER_CAPACITY then
      Exit 4 (fprintf_stderr (TraceLengthExceedsCapacity trace_length) w)
    else
      let '(n, bs, f) :=
        fread sizeof_trace_record_t (to_size_t trace_length) (trace_file w) in
      let w := set_trace_file f w in
      if Z.of_nat (length bs) >? sizeof_trace_record_t * TRACE_BUFFER_CAPACITY
      then Undefined BufferOverflow w
      else
        let w := set_trace (overwrite bs (trace w)) w in
        let items_read := wrap 32 (items_read + n) in
        do (_, w) <- write_lines (Z.to_nat trace_length) 0 w;
        Return (to_size_t items_read) w.

(** The loop [while (read_trace(trace_file, csv_file) != 0) {}], with at most
    [fuel] calls: [None] when they are used up. *)
Fixpoint read_all (fuel : nat) (w : world) : option (outcome unit) :=
  match fuel with
  | O => None
  | S fuel' =>
      match read_trace w with
      | Return r w' => if r =? 0 then Some (Return tt w') else read_all fuel' w'
      | Exit s w' => Some (Exit s w')
      | Undefined f w' => Some (Undefined f w')
      end
  end.

(** The loop of main that frees the descriptions: it reads the entries of
    the table, which must not be null if there is any.  The process ends
    right after, so the heap is not credited. *)
Definition free_descriptions (w : world) : outcome unit :=
  if 0 <? object_descriptions_size w then
    match object_descriptions w with
    | None => Undefined NullPointer w
    | Some _ => Return tt w
    end
  else Return tt w.

(** [main] from line 215 on, that is, once both files are open: [w] holds the
    input stream and an empty output.  Each call of read_trace that does not
    end the loop consumes a batch length, so one call more than there are
    bytes left is enough. *)
Definition main (w : world) : option (outcome Z) :=
  match read_header w with
  | Return r w =>
      let body :=
        if 0 <=? r then
          read_all (S (length (f_data (trace_file w)))) (fprintf_csv csv_header w)
        else Some (Return tt w) in
      match body with
      | None => None
      | Some o =>
          Some (do (_, w) <- o; do (_, w) <- free_descriptions w; Return 0 w)
      end
  | Exit s w => Some (Exit s w)
  | Undefined f w => Some (Undefined f w)
  end.

End TraceToCsv.

(** ** Sample inputs

    A capacity, a name table and a failure macro to run the program with, and
    the trace files used as test inputs below. *)

Definition sample_capacity : Z := 2048.

Definition sample_event_names : list string :=
  ["Reaction starts"; "Reaction ends"; "Worker wait starts"; "Worker wait ends"]%string.

(** A macro that makes read_header return -1. *)
Definition sample_failure (w : world) : outcome Z := Return (-1) w.

(** A stream over [bs] that ends with an end-of-file. *)
Definition stream (bs : list byte) : FILE := mkFILE bs false false false.

(** A stream over [bs] whose device fails once [bs] is used up. *)
Definition faulty_stream (bs : list byte) : FILE := mkFILE bs true false false.

(** The header of a trace file. *)
Definition encode_header (start : Z)
    (table : list (Z * string)) (count : Z) : list byte :=
  le_bytes 8 start ++ le_bytes 4 count ++
  flat_map (fun e => le_bytes 8 (fst e) ++ bytes_of_string (snd e)) table.

(** A batch whose length field says [n], followed by [records]. *)
Definition encode_batch (n : Z) (records : list trace_record_t) : list byte :=
  le_bytes 4 n ++ flat_map encode_record records.

Definition reactor_a : Z := 4096.

(** The record of the minimal file: no reaction, times 1500 and 1600. *)
Definition sample_record : trace_record_t :=
  mkRecord 0 reactor_a (-1) 0 1500 0 1600.

(** A record of reaction 7 on an object that has no description. *)
Definition stray_record : trace_record_t :=
  mkRecord 1 8192 7 2 2500 1 2600.

(** A record whose event kind is outside the sample table. *)
Definition garbled_record : trace_record_t :=
  mkRecord 99 reactor_a (-1) 0 1500 0 1600.

(** A record of reaction 1000. *)
Definition busy_record : trace_record_t :=
  mkRecord 0 reactor_a 1000 0 1500 0 1600.

(** A record stamped at the far ends of [instant_t]. *)
Definition extreme_record : trace_record_t :=
  mkRecord 0 reactor_a (-1) 0 (2 ^ 63 - 1) 0 (- 2 ^ 63).

Definition sample_header : list byte :=
  encode_header 1000 [(reactor_a, "Reactor_A"%string)] 1.

(** The state after the header of the minimal file has been read, with [body]
    left in the stream. *)
Definition loaded_world (body : list byte) : world :=
  mkWorld (stream body) [csv_header] [] 1000
          (Some [mkDescription reactor_a (Some "Reactor_A"%string)]) 1 [] 4096.

(** The minimal file: the sample header and one batch of one record. *)
Definition minimal_file : list byte :=
  sample_header ++ encode_batch 1 [sample_record].

(** A header that declares -1 objects, followed by one batch of one record. *)
Definition negative_count_file : list byte :=
  encode_header 1000 [] (-1) ++ encode_batch 1 [sample_record].

(** The state after the header, with the records [rs] in the record buffer
    and nothing left in the stream. *)
Definition buffered_world (rs : list trace_record_t) : world :=
  mkWorld (stream []) [csv_header] [] 1000
          (Some [mkDescription reactor_a (Some "Reactor_A"%string)]) 1
          (flat_map encode_record rs) 4096.

(** Two bytes where a batch length is expected. *)
Definition truncated_world : world := loaded_world [x01; x00].

(** The same two bytes on a device that fails instead of ending. *)
Definition failing_world : world :=
  set_trace_file (faulty_stream [x01; x00]) (loaded_world []).

(** One batch of one record. *)
Definition one_record_world : world :=
  loaded_world (encode_batch 1 [sample_record]).

(** One batch whose record has an event kind outside the table. *)
Definition garbled_world : world :=
  loaded_world (encode_batch 1 [garbled_record]).

(** A batch that declares one record more than the sample capacity. *)
Definition oversized_world : world :=
  loaded_world (encode_batch (sample_capacity + 1) [sample_record]).

(** An empty batch followed by a batch of one record. *)
Definition empty_batch_world : world :=
  loaded_world (encode_batch 0 [] ++ encode_batch 1 [sample_record]).

(** A batch that declares -1 records, followed by one record. *)
Definition negative_length_world : world :=
  loaded_world (encode_batch (-1) [sample_record]).

(** A batch of two records, the first stamped at the ends of [instant_t],
    the second with an event kind outside the table. *)
Definition faulted_batch_world : world :=
  loaded_world (encode_batch 2 [extreme_record; garbled_record]).

(** A header that declares 2147483647 objects, followed by one batch of one
    record. *)
Definition huge_count_file : list byte :=
  encode_header 1000 [] 2147483647 ++ encode_batch 1 [sample_record].

(** A batch of two records, the second stamped at the ends of [instant_t]. *)
Definition two_records_world : world :=
  loaded_world (encode_batch 2 [stray_record; extreme_record]).

(** ** Vocabulary of the statements *)

(** The stream once a read has used up all that was left of it. *)
Definition drained (f : FILE) : FILE :=
  mkFILE [] (f_faulty f) (f_eof f || negb (f_faulty f)) (f_err f || f_faulty f).

(** The stream once its first [n] bytes have been read. *)
Definition advanced (n : nat) (f : FILE) : FILE :=
  mkFILE (skipn n (f_data f)) (f_faulty f) (f_eof f) (f_err f).

(** The number of bytes left in the input. *)
Definition bytes_left (w : world) : Z :=
  Z.of_nat (length (f_data (trace_file w))).

(** The batch length held in the next four bytes of the input. *)
Definition batch_length (w : world) : Z :=
  decode_int (firstn 4 (f_data (trace_file w))).

(** The state once the batch length has been read. *)
Definition after_length (w : world) : world :=
  set_trace_file (advanced 4 (trace_file w)) w.

(** The state once a short read has used up the input. *)
Definition at_end (w : world) : world :=
  set_trace_file (drained (trace_file w)) w.

(** [object] is the object of one of the entries of the table. *)
Definition described (w : world) (object : Z) : Prop :=
  exists i table,
    0 <= i < object_descriptions_size w /\
    object_descriptions w = Some table /\
    od_object (nth (Z.to_nat i) table (mkDescription 0 None)) = object.

(** [w'] differs from [w] at most in the output written and in the heap:
    what the loop over the records of a batch leaves alone. *)
Definition same_input (w w' : world) : Prop :=
  trace_file w' = trace_file w /\ stderr w' = stderr w /\
  start_time w' = start_time w /\
  object_descriptions w' = object_descriptions w /\
  object_descriptions_size w' = object_descriptions_size w /\
  trace w' = trace w.

(** ** Well-formed trace files *)

(** The values an [int], an [instant_t] and a pointer can hold. *)
Definition int_range (z : Z) : Prop := - 2 ^ 31 <= z < 2 ^ 31.
Definition instant_range (z : Z) : Prop := - 2 ^ 63 <= z < 2 ^ 63.
Definition pointer_range (z : Z) : Prop := 0 <= z < 2 ^ 64.

(** A record whose fields are values of their C types. *)
Definition record_in_range (r : trace_record_t) : Prop :=
  int_range (event_type r) /\ pointer_range (self_struct r) /\
  int_range (reaction_number r) /\ int_range (worker r) /\
  instant_range (logical_time r) /\ int_range (microstep r) /\
  instant_range (physical_time r).

(** A description read_header stores whole: no null character in it, and no
    more characters than [buffer] holds besides the terminating null. *)
Definition description_ok (s : string) : Prop :=
  Z.of_nat (String.length s) <= BUFFER_SIZE - 1 /\
  Forall (fun c => c <> zero) (list_ascii_of_string s).

Definition entry_ok (e : Z * string) : Prop :=
  pointer_range (fst e) /\ description_ok (snd e).

(** The table read_header builds from the entries of a header. *)
Definition table_entries (table : list (Z * string)) : list object_description_t :=
  map (fun e => mkDescription (fst e) (Some (snd e))) table.

(** The bytes read_header takes from the heap for the descriptions of a
    table, each with its terminating null. *)
Fixpoint description_bytes (table : list (Z * string)) : Z :=
  match table with
  | [] => 0
  | e :: rest => Z.of_nat (String.length (snd e)) + 1 + description_bytes rest
  end.

(** The state read_header leaves when it has read a whole header that
    declares [table] and starts at [start], with [body] left in the stream. *)
Definition after_header (start : Z) (table : list (Z * string))
    (body : list byte) (w : world) : world :=
  mkWorld (mkFILE body (f_faulty (trace_file w)) (f_eof (trace_file w))
                  (f_err (trace_file w)))
          (csv_file w) (stderr w) start (Some (table_entries table))
          (Z.of_nat (length table)) (trace w)
          (heap w - sizeof_trace_record_t * Z.of_nat (length table)
                  - description_bytes table).

(** A whole trace file: the header, then the batches, each with the number
    of its records as its length. *)
Definition encode_batches (batches : list (list trace_record_t)) : list byte :=
  flat_map (fun rs => encode_batch (Z.of_nat (length rs)) rs) batches.

Definition encode_file (start : Z) (table : list (Z * string))
    (batches : list (list trace_record_t)) : list byte :=
  encode_header start table (Z.of_nat (length table)) ++ encode_batches batches.

(** The records [trace\[i\]] to [trace\[i + n - 1\]]. *)
Definition buffered_records (w : world) (i : Z) (n : nat) : list trace_record_t :=
  map (fun k => trace_record w (i + Z.of_nat k)) (seq 0 n).

(** The bytes the reaction names of [rs] take from the heap: four for each
    record that has a reaction. *)
Fixpoint reaction_bytes (rs : list trace_record_t) : Z :=
  match rs with
  | [] => 0
  | r :: rest =>
      (if 0 <=? reaction_number r then 4 else 0) + reaction_bytes rest
  end.

(** The text of the reaction column. *)
Definition reaction_text (n : Z) : string :=
  if 0 <=? n then snprintf_d 4 n else "none"%string.

(** The row of the record [r], given the name table, the symbol table and the
    start time of [w]; [None] when the event kind is outside the name table
    or the description cannot be read. *)
Definition row_text (names : list string) (w : world) (r : trace_record_t)
  : option string :=
  match event_name names (event_type r),
        get_description w (self_struct r) with
  | Some event, inr (Some description) =>
      Some (csv_line event description (reaction_text (reaction_number r))
                     (worker r)
                     (sub_instant (logical_time r) (start_time w))
                     (microstep r)
                     (sub_instant (physical_time r) (start_time w)))
  | _, _ => None
  end.

(** The rows of the records [rs]. *)
Definition rows_text (names : list string) (w : world)
    (rs : list trace_record_t) : list string :=
  flat_map (fun r => match row_text names w r with
                     | Some line => [line]
                     | None => []
                     end) rs.

(** The state once [lines] have been written to the output and [bytes] taken
    from the heap. *)
Definition with_rows (lines : list string) (bytes : Z) (w : world) : world :=
  mkWorld (trace_file w) (csv_file w ++ lines) (stderr w) (start_time w)
          (object_descriptions w) (object_descriptions_size w) (trace w)
          (heap w - bytes).

(** The state once the batch of the records [rs] has been read into the
    record buffer, with [rest] left in the stream. *)
Definition after_batch (rs : list trace_record_t) (rest : list byte)
    (w : world) : world :=
  set_trace (overwrite (flat_map encode_record rs) (trace w))
    (set_trace_file (mkFILE rest (f_faulty (trace_file w)) (f_eof (trace_file w))
                            (f_err (trace_file w))) w).

(** ** The file names of main

    The lines 194-196 and 205-207 of main build each file name in an array of
    [strlen(argv\[1\]) + 4] characters. *)

Definition strlen (s : string) : Z := Z.of_nat (String.length s).

(** [strcpy(dest, src)] into an array of [size] characters: the text of
    [dest] afterwards, or the fault of writing past the array. *)
Definition strcpy (size : Z) (src : string) : fault + string :=
  if strlen src + 1 <=? size then inr src else inl BufferOverflow.

(** [strcat(dest, src)], [dest] being an array of [size] characters. *)
Definition strcat (size : Z) (dest src : string) : fault + string :=
  if strlen dest + strlen src + 1 <=? size then inr (dest ++ src)%string
  else inl BufferOverflow.

(** The name main builds from [argv\[1\]] and an extension. *)
Definition file_name (root extension : string) : fault + string :=
  let size := strlen root + 4 in
  match strcpy size root with
  | inl f => inl f
  | inr name => strcat size name extension
  end.

(** ** Further sample inputs *)

Definition sample_table : list (Z * string) := [(reactor_a, "Reactor_A"%string)].

(** Two batches, of two records each. *)
Definition sample_batches : list (list trace_record_t) :=
  [[sample_record; stray_record]; [busy_record; extreme_record]].

(** A batch that declares three records where the file holds one. *)
Definition short_block_world : world :=
  loaded_world (encode_batch 3 [sample_record]).

(** A table with two entries for the same object. *)
Definition twin_world : world :=
  mkWorld (stream []) [csv_header] [] 1000
          (Some [mkDescription 8192 (Some "other"%string);
                 mkDescription reactor_a (Some "first"%string);
                 mkDescription reactor_a (Some "second"%string)]) 3 [] 4096.

(** The characters ABCDE, a null and one more byte, the first character
    apart. *)
Definition long_text_stream : FILE := stream [x42; x43; x44; x45; x00; x01].

(* The proofs unfold these by name only. *)
Arguments trace_record : simpl never.
Arguments csv_line : simpl never.
Arguments sub_instant : simpl never.
Arguments get_description : simpl never.
Arguments reaction_name : simpl never.
Arguments event_name : simpl never.
Arguments decode_int : simpl never.
Arguments fread : simpl never.
Arguments wrap : simpl never.
Arguments to_size_t : simpl never.
Arguments write_line : simpl never.
Arguments read_trace : simpl never.
Arguments read_header : simpl never.

(** ** Reading from a stream *)

Lemma fread_one_full (size : Z) (f : FILE) :
  0 < size -> size <= Z.of_nat (length (f_data f)) ->
  fread size 1 f = (1, firstn (Z.to_nat size) (f_data f), advanced (Z.to_nat size) f).
Proof.
  intros Hpos Hle. unfold fread, advanced.
  rewrite Z.mul_1_r.
  destruct (Z.eqb_spec size 0) as [E | _]; [lia |].
  destruct (Z.leb_spec size (Z.of_nat (length (f_data f)))) as [_ | L]; [reflexivity | lia].
Qed.

Lemma fread_one_short (size : Z) (f : FILE) :
  0 < size -> Z.of_nat (length (f_data f)) < size ->
  fread size 1 f = (0, f_data f, drained f).
Proof.
  intros Hpos Hlt. unfold fread, drained.
  rewrite Z.mul_1_r.
  destruct (Z.eqb_spec size 0) as [E | _]; [lia |].
  destruct (Z.leb_spec size (Z.of_nat (length (f_data f)))) as [L | _]; [lia |].
  rewrite Z.div_small by lia. reflexivity.
Qed.

(** What a read of [nmemb] items transfers: never more than was asked for,
    and a count of complete items that matches it. *)
Lemma fread_bounds (size nmemb : Z) (f : FILE) n bs f' :
  0 < size -> 0 <= nmemb ->
  fread size nmemb f = (n, bs, f') ->
  0 <= n <= nmemb /\ size * n <= Z.of_nat (length bs) /\
  (length (f_data f') <= length (f_data f))%nat /\
  f_faulty f' = f_faulty f.
Proof.
  intros Hsize Hn. unfold fread.
  destruct (Z.eqb_spec (size * nmemb) 0) as [E | NE].
  - intros H; inversion H; subst; clear H. simpl. repeat split; lia.
  - destruct (Z.leb_spec (size * nmemb) (Z.of_nat (length (f_data f)))) as [L | G];
      intros H; inversion H; subst; clear H; simpl.
    + rewrite length_firstn, length_skipn. repeat split; lia.
    + assert (0 <= Z.of_nat (length (f_data f)) / size) by (apply Z.div_pos; lia).
      assert (size * (Z.of_nat (length (f_data f)) / size) <= Z.of_nat (length (f_data f)))
        by (apply Z.mul_div_le; lia).
      repeat split; try lia.
      apply Z.div_le_upper_bound; lia.
Qed.

(** ** The loop over the records of a batch *)

Lemma same_input_refl (w : world) : same_input w w.
Proof. repeat split. Qed.

Lemma same_input_trans (w1 w2 w3 : world) :
  same_input w1 w2 -> same_input w2 w3 -> same_input w1 w3.
Proof.
  unfold same_input. intros (A1 & A2 & A3 & A4 & A5 & A6) (B1 & B2 & B3 & B4 & B5 & B6).
  repeat split; congruence.
Qed.

Lemma get_description_same_input (w w' : world) (object : Z) :
  same_input w w' -> get_description w' object = get_description w object.
Proof.
  intros (_ & _ & _ & Ht & Hs & _). unfold get_description. now rewrite Ht, Hs.
Qed.

Lemma trace_record_same_input (w w' : world) (i : Z) :
  same_input w w' -> trace_record w' i = trace_record w i.
Proof.
  intros (_ & _ & _ & _ & _ & Ht). unfold trace_record. now rewrite Ht.
Qed.

(** The allocation for the reaction name touches the heap only, and the
    process never exits there. *)
Lemma reaction_name_cases (r : trace_record_t) (w : world) :
  (reaction_number r < 0 /\ reaction_name r w = Return "none"%string w) \/
  (0 <= reaction_number r /\ 4 <= heap w /\
   reaction_name r w =
     Return (snprintf_d 4 (reaction_number r)) (set_heap (heap w - 4) w)) \/
  (0 <= reaction_number r /\ heap w < 4 /\
   reaction_name r w = Undefined NullPointer w).
Proof.
  unfold reaction_name, malloc.
  destruct (Z.leb_spec 0 (reaction_number r)) as [P | N]; [| left; split; [lia | reflexivity]].
  right. destruct (Z.leb_spec 4 (heap w)); [left | right]; repeat split; lia.
Qed.

Lemma reaction_name_same_input (r : trace_record_t) (w : world) :
  same_input w (final_world (reaction_name r w)) /\
  csv_file (final_world (reaction_name r w)) = csv_file w /\
  forall s w', reaction_name r w <> Exit s w'.
Proof.
  destruct (reaction_name_cases r w) as [(_ & E) | [(_ & _ & E) | (_ & _ & E)]];
    rewrite E; simpl; repeat split; discriminate.
Qed.

Section Properties.

Variable TRACE_BUFFER_CAPACITY : Z.
Variable trace_event_names : list string.
Variable LF_TRACE_FAILURE : world -> outcome Z.

Local Abbreviation event_name := (event_name trace_event_names).
Local Abbreviation write_line := (write_line trace_event_names).
Local Abbreviation write_lines := (write_lines trace_event_names).
Local Abbreviation read_trace := (read_trace TRACE_BUFFER_CAPACITY trace_event_names).
Local Abbreviation read_all := (read_all TRACE_BUFFER_CAPACITY trace_event_names).
Local Abbreviation read_header := (read_header LF_TRACE_FAILURE).
Local Abbreviation main :=
  (main TRACE_BUFFER_CAPACITY trace_event_names LF_TRACE_FAILURE).

(** The line a record is printed as, once its three texts are known. *)
Lemma write_line_returns (i : Z) (w w' : world) :
  write_line i w = Return tt w' ->
  exists event description name w1,
    let r := trace_record w i in
    reaction_name r w = Return name w1 /\
    event_name (event_type r) = Some event /\
    get_description w (self_struct r) = inr (Some description) /\
    w' = fprintf_csv
           (csv_line event description name (worker r)
                     (sub_instant (logical_time r) (start_time w))
                     (microstep r)
                     (sub_instant (physical_time r) (start_time w)))
           w1.
Proof.
  unfold write_line. intros H.
  pose proof (reaction_name_same_input (trace_record w i) w) as (Hs & _ & _).
  destruct (reaction_name (trace_record w i) w) as [name w1 | |]; cbn [bind final_world] in *; try discriminate.
  destruct (event_name (event_type (trace_record w i))) as [event |] eqn:Ee; try discriminate.
  rewrite (get_description_same_input _ _ _ Hs) in H.
  destruct (get_description w (self_struct (trace_record w i))) as [f | [d |]] eqn:Ed;
    try discriminate.
  exists event, d, name, w1. cbv zeta.
  destruct Hs as (_ & _ & Hst & _).
  rewrite Hst in H. inversion H; subst. auto.
Qed.

(** Whatever becomes of a record, the input, the table and the diagnostics
    stay as they are, and the process does not exit. *)
Lemma write_line_same_input (i : Z) (w : world) :
  same_input w (final_world (write_line i w)) /\
  forall s w', write_line i w <> Exit s w'.
Proof.
  unfold write_line.
  pose proof (reaction_name_same_input (trace_record w i) w) as (Hs & _ & Hx).
  destruct (reaction_name (trace_record w i) w) as [name w1 | s w1 | f w1]; cbn [bind final_world] in *.
  - destruct (event_name _); [| split; [assumption | discriminate]].
    destruct (get_description _ _) as [f | [d |]]; simpl;
      (split; [assumption | discriminate]).
  - exfalso. apply (Hx s w1). reflexivity.
  - split; [assumption | discriminate].
Qed.

Lemma write_lines_same_input (n : nat) : forall (i : Z) (w : world),
  same_input w (final_world (write_lines n i w)) /\
  forall s w', write_lines n i w <> Exit s w'.
Proof.
  induction n as [| n IH]; intros i w; cbn.
  - split; [apply same_input_refl | discriminate].
  - pose proof (write_line_same_input i w) as (Hs & Hx).
    destruct (write_line i w) as [[] w1 | s w1 | f w1]; cbn [bind final_world] in *.
    + destruct (IH (i + 1) w1) as (Hs' & Hx').
      split; [eapply same_input_trans; eassumption | assumption].
    + exfalso. apply (Hx s w1). reflexivity.
    + split; [assumption | discriminate].
Qed.

(** The output of a loop that runs to its end: one line per record, in
    order, each with the fields of its record. *)
Lemma write_lines_returns (n : nat) : forall (i : Z) (w w' : world),
  write_lines n i w = Return tt w' ->
  exists rows,
    csv_file w' = csv_file w ++ rows /\ length rows = n /\
    forall k, (k < n)%nat ->
      exists event description name,
        let r := trace_record w (i + Z.of_nat k) in
        event_name (event_type r) = Some event /\
        get_description w (self_struct r) = inr (Some description) /\
        (exists w0 w1, reaction_name r w0 = Return name w1) /\
        nth k rows EmptyString =
          csv_line event description name (worker r)
                   (sub_instant (logical_time r) (start_time w))
                   (microstep r)
                   (sub_instant (physical_time r) (start_time w)).
Proof.
  induction n as [| n IH]; intros i w w' H; cbn in H.
  - inversion H; subst. exists []. rewrite app_nil_r. repeat split. intros k Hk; lia.
  - pose proof (write_line_same_input i w) as (Hs & _).
    destruct (write_line i w) as [[] w1 | |] eqn:El; cbn [bind final_world] in *; try discriminate.
    destruct (write_line_returns _ _ _ El) as (event & d & name & w0 & Hn & He & Hd & Hw).
    destruct (IH _ _ _ H) as (rows & Hc & Hl & Hrows).
    exists (csv_line event d name (worker (trace_record w i))
              (sub_instant (logical_time (trace_record w i)) (start_time w))
              (microstep (trace_record w i))
              (sub_instant (physical_time (trace_record w i)) (start_time w)) :: rows).
    split; [| split].
    + rewrite Hc, Hw. simpl. rewrite <- app_assoc.
      f_equal.
      pose proof (reaction_name_same_input (trace_record w i) w) as (_ & Hcsv & _).
      rewrite Hn in Hcsv. simpl in Hcsv. now rewrite Hcsv.
    + simpl. now rewrite Hl.
    + intros [| k] Hk.
      * rewrite Z.add_0_r. exists event, d, name. cbv zeta.
        repeat split; try assumption. now exists w, w0.
      * destruct (Hrows k ltac:(lia)) as (ev' & d' & n' & He' & Hd' & Hn' & Hnth).
        cbv zeta in *.
        replace (i + Z.of_nat (S k)) with (i + 1 + Z.of_nat k) by lia.
        rewrite (trace_record_same_input _ _ _ Hs) in He', Hd', Hn', Hnth.
        rewrite (get_description_same_input _ _ _ Hs) in Hd'.
        destruct Hs as (_ & _ & Hst & _). rewrite Hst in Hnth.
        exists ev', d', n'. repeat split; assumption.
Qed.

(** ** read_trace, case by case *)

(** The batch length cannot be read: the end of the file, or a read error. *)
Lemma read_trace_short (w : world) :
  bytes_left w < 4 ->
  read_trace w =
    if feof (drained (trace_file w)) then Return 0 (at_end w)
    else Exit 3 (fprintf_stderr FailedToReadTraceLength (at_end w)).
Proof.
  intros Hs. unfold read_trace, bytes_left in *.
  rewrite fread_one_short by (unfold sizeof_int; lia).
  reflexivity.
Qed.

(** The batch length has been read: the capacity check, the block read and
    the loop over the records. *)
Lemma read_trace_length_read (w : world) :
  4 <= bytes_left w ->
  read_trace w =
    if batch_length w >? TRACE_BUFFER_CAPACITY then
      Exit 4 (fprintf_stderr (TraceLengthExceedsCapacity (batch_length w))
                             (after_length w))
    else
      let '(n, bs, f) :=
        fread sizeof_trace_record_t (to_size_t (batch_length w))
              (advanced 4 (trace_file w)) in
      let w1 := set_trace_file f (after_length w) in
      if Z.of_nat (length bs) >? sizeof_trace_record_t * TRACE_BUFFER_CAPACITY
      then Undefined BufferOverflow w1
      else
        do (_, w2) <- write_lines (Z.to_nat (batch_length w)) 0
                        (set_trace (overwrite bs (trace w)) w1);
        Return (to_size_t (wrap 32 (1 + n))) w2.
Proof.
  intros Hs. unfold read_trace, bytes_left in *.
  rewrite fread_one_full by (unfold sizeof_int; lia).
  reflexivity.
Qed.

Lemma to_size_t_nonneg (z : Z) : 0 <= to_size_t z.
Proof. unfold to_size_t. apply Z.mod_pos_bound. lia. Qed.

(** The exits of read_trace are the two of its first lines: status 3 when the
    length cannot be read and the stream is not at its end, status 4 when the
    length exceeds the capacity. *)
Lemma read_trace_exits (w w' : world) (s : Z) :
  read_trace w = Exit s w' ->
  (s = 3 /\ bytes_left w < 4 /\ feof (drained (trace_file w)) = false) \/
  (s = 4 /\ 4 <= bytes_left w /\ batch_length w > TRACE_BUFFER_CAPACITY).
Proof.
  intros H. destruct (Z.lt_ge_cases (bytes_left w) 4) as [Hs | Hl].
  - rewrite (read_trace_short w Hs) in H.
    destruct (feof (drained (trace_file w))); inversion H; subst. left. auto.
  - rewrite (read_trace_length_read w Hl) in H.
    destruct (Z.gtb_spec (batch_length w) TRACE_BUFFER_CAPACITY) as [G | L].
    + inversion H; subst. right. repeat split; lia.
    + exfalso.
      destruct (fread _ _ _) as [[n bs] f]. cbv zeta in H.
      destruct (Z.of_nat (length bs) >? _); [discriminate |].
      pose proof (write_lines_same_input (Z.to_nat (batch_length w)) 0
                    (set_trace (overwrite bs (trace w)) (set_trace_file f (after_length w))))
        as (_ & Hx).
      destruct (write_lines _ _ _) as [[] w2 | s2 w2 | f2 w2]; cbn [bind] in H;
        try discriminate.
      apply (Hx s2 w2). reflexivity.
Qed.

(** A call that returns a value other than 0 has consumed the batch length. *)
Lemma read_trace_progress (w w' : world) (r : Z) :
  read_trace w = Return r w' -> r <> 0 ->
  (length (f_data (trace_file w')) < length (f_data (trace_file w)))%nat.
Proof.
  intros H Hr. destruct (Z.lt_ge_cases (bytes_left w) 4) as [Hs | Hl].
  - rewrite (read_trace_short w Hs) in H.
    destruct (feof (drained (trace_file w))); inversion H; subst. lia.
  - rewrite (read_trace_length_read w Hl) in H.
    destruct (batch_length w >? TRACE_BUFFER_CAPACITY); [discriminate |].
    destruct (fread _ _ _) as [[n bs] f] eqn:Ef. cbv zeta in H.
    destruct (Z.of_nat (length bs) >? _); [discriminate |].
    apply fread_bounds in Ef;
      [| unfold sizeof_trace_record_t; lia | apply to_size_t_nonneg].
    destruct Ef as (_ & _ & Hlen & _).
    pose proof (write_lines_same_input (Z.to_nat (batch_length w)) 0
                  (set_trace (overwrite bs (trace w)) (set_trace_file f (after_length w))))
      as ((Hf & _) & _).
    destruct (write_lines _ _ _) as [[] w2 | s2 w2 | f2 w2]; cbn [bind] in H;
      try discriminate.
    inversion H; subst. cbn [final_world] in Hf. rewrite Hf.
    unfold bytes_left in Hl. unfold after_length, advanced in *.
    cbn [trace_file set_trace set_trace_file f_data] in *.
    rewrite length_skipn in Hlen. lia.
Qed.

(** ** The driving loop ends *)

Lemma read_all_total (fuel : nat) : forall w : world,
  (length (f_data (trace_file w)) < fuel)%nat ->
  exists o, read_all fuel w = Some o.
Proof.
  induction fuel as [| fuel IH]; intros w Hf; [lia |].
  cbn.
  destruct (read_trace w) as [r w' | s w' | f w'] eqn:E.
  - destruct (Z.eqb_spec r 0) as [-> | NE]; [eauto |].
    apply IH. pose proof (read_trace_progress _ _ _ E NE). lia.
  - eauto.
  - eauto.
Qed.

(** ** The value read_header returns *)

Lemma trace_failure_nonneg (w w' : world) (r : Z) :
  trace_failure LF_TRACE_FAILURE w = Return r w' -> 0 <= r.
Proof.
  unfold trace_failure.
  destruct (LF_TRACE_FAILURE w); cbn [bind]; intros H; inversion H.
  apply to_size_t_nonneg.
Qed.

Lemma read_entries_nonneg (n : nat) : forall (i : nat) (w w' : world) (r : Z),
  read_entries LF_TRACE_FAILURE n i w = Return r w' -> 0 <= r.
Proof.
  induction n as [| n IH]; intros i w w' r; cbn [read_entries].
  - intros H; inversion H. apply to_size_t_nonneg.
  - destruct (fread sizeof_pointer 1 (trace_file w)) as [[k1 bs1] f1].
    destruct (negb (k1 =? 1)); [apply trace_failure_nonneg |].
    destruct (fread sizeof_char 1 _) as [[k2 bs2] f2].
    destruct (negb (k2 =? 1)); [apply trace_failure_nonneg |].
    destruct (read_description _ _ _) as [[buffer |] f3];
      [| apply trace_failure_nonneg].
    destruct (malloc _ _) as [w3 |]; [| discriminate].
    apply IH.
Qed.

(** As a [size_t], the value read_header returns is never negative: the -1 of
    a failure is the largest [size_t]. *)
Lemma read_header_nonneg (w w' : world) (r : Z) :
  read_header w = Return r w' -> 0 <= r.
Proof.
  unfold read_header.
  destruct (fread sizeof_instant_t 1 (trace_file w)) as [[k1 bs1] f1].
  destruct (negb (k1 =? 1)); [apply trace_failure_nonneg |].
  destruct (fread sizeof_int 1 _) as [[k2 bs2] f2].
  destruct (negb (k2 =? 1)); [apply trace_failure_nonneg |].
  destruct (calloc _ _ _) as [w3 |].
  - apply read_entries_nonneg.
  - intros H; inversion H. apply to_size_t_nonneg.
Qed.

(** So the test [read_header(trace_file) >= 0] of main always holds: whenever
    read_header returns, main writes the header line and runs the loop. *)
Lemma main_guard_holds (w w1 : world) (r : Z) :
  read_header w = Return r w1 ->
  main w =
    match read_all (S (length (f_data (trace_file w1)))) (fprintf_csv csv_header w1) with
    | None => None
    | Some o => Some (do (_, w2) <- o; do (_, w3) <- free_descriptions w2; Return 0 w3)
    end.
Proof.
  intros H. unfold main. rewrite H.
  pose proof (read_header_nonneg _ _ _ H) as Hr.
  destruct (Z.leb_spec 0 r); [reflexivity | lia].
Qed.

(** main produces an outcome: the fuel it gives the loop is enough. *)
Lemma main_total (w : world) : exists o, main w = Some o.
Proof.
  destruct (read_header w) as [r w1 | s w1 | f w1] eqn:E.
  - rewrite (main_guard_holds _ _ _ E).
    destruct (read_all_total (S (length (f_data (trace_file w1))))
                (fprintf_csv csv_header w1)) as (o & Ho); [cbn; lia |].
    rewrite Ho. eauto.
  - unfold main. rewrite E. eauto.
  - unfold main. rewrite E. eauto.
Qed.

(** ** The value read_trace returns *)

Lemma wrap_32_small (z : Z) : - 2 ^ 31 <= z < 2 ^ 31 -> wrap 32 z = z.
Proof.
  intros H. unfold wrap. change (2 ^ (32 - 1)) with (2 ^ 31).
  rewrite Z.mod_small; lia.
Qed.

(** A call that returns after the batch length was read has run the loop to
    its end, and its value is one more than the number of complete records
    the block read transferred. *)
Lemma read_trace_returns (w w' : world) (r : Z) :
  4 <= bytes_left w -> read_trace w = Return r w' ->
  exists n bs f,
    fread sizeof_trace_record_t (to_size_t (batch_length w))
          (advanced 4 (trace_file w)) = (n, bs, f) /\
    batch_length w <= TRACE_BUFFER_CAPACITY /\
    Z.of_nat (length bs) <= sizeof_trace_record_t * TRACE_BUFFER_CAPACITY /\
    write_lines (Z.to_nat (batch_length w)) 0
      (set_trace (overwrite bs (trace w)) (set_trace_file f (after_length w)))
      = Return tt w' /\
    r = to_size_t (wrap 32 (1 + n)).
Proof.
  intros Hl H. rewrite (read_trace_length_read w Hl) in H.
  destruct (Z.gtb_spec (batch_length w) TRACE_BUFFER_CAPACITY) as [G | L];
    [discriminate |].
  destruct (fread _ _ _) as [[n bs] f] eqn:Ef. cbv zeta in H.
  destruct (Z.gtb_spec (Z.of_nat (length bs))
              (sizeof_trace_record_t * TRACE_BUFFER_CAPACITY)) as [G | L'];
    [discriminate |].
  destruct (write_lines _ _ _) as [[] w2 | s2 w2 | f2 w2] eqn:El; cbn [bind] in H;
    try discriminate.
  inversion H; subst. exists n, bs, f. repeat split; auto.
Qed.

(** With a capacity in the range of [int], that value is never 0. *)
Lemma read_trace_return_value (w w' : world) (r : Z) :
  0 <= TRACE_BUFFER_CAPACITY < 2 ^ 31 - 1 ->
  4 <= bytes_left w -> read_trace w = Return r w' ->
  exists n bs f,
    fread sizeof_trace_record_t (to_size_t (batch_length w))
          (advanced 4 (trace_file w)) = (n, bs, f) /\
    r = 1 + n /\ 0 <= n <= TRACE_BUFFER_CAPACITY.
Proof.
  intros Hcap Hl H.
  destruct (read_trace_returns _ _ _ Hl H) as (n & bs & f & Ef & _ & Hb & _ & Hr).
  exists n, bs, f. split; [assumption |].
  assert (Hpos : 0 < sizeof_trace_record_t) by (unfold sizeof_trace_record_t; lia).
  pose proof (fread_bounds _ _ _ _ _ _ Hpos (to_size_t_nonneg _) Ef) as (Hn & Hsz & _).
  unfold sizeof_trace_record_t in *.
  assert (Hnc : 0 <= n <= TRACE_BUFFER_CAPACITY) by lia.
  split; [| assumption].
  rewrite Hr, wrap_32_small by lia.
  unfold to_size_t. apply Z.mod_small. lia.
Qed.

(** ** The batch length *)

(** C1 (as amended).  When fewer than four bytes are left at a batch-length
    boundary, read_trace returns 0 whenever the end-of-file indicator is set
    after the read, whether no byte or one to three bytes were left: a
    truncated length field ends the loop like a clean end of file.  It exits
    with status 3 only when the short read leaves the indicator clear (a read
    error).  Once the length has been read the call returns neither 0 nor
    exits with status 3. *)
Theorem read_trace_end_of_input (w : world) :
  0 <= TRACE_BUFFER_CAPACITY < 2 ^ 31 - 1 ->
  (bytes_left w < 4 ->
     read_trace w =
       if feof (drained (trace_file w)) then Return 0 (at_end w)
       else Exit 3 (fprintf_stderr FailedToReadTraceLength (at_end w))) /\
  (bytes_left w < 4 -> f_faulty (trace_file w) = false ->
     read_trace w = Return 0 (at_end w)) /\
  (4 <= bytes_left w ->
     forall w', read_trace w <> Return 0 w' /\ read_trace w <> Exit 3 w').
Proof.
  intros Hcap. split; [| split].
  - apply read_trace_short.
  - intros Hs Hf. rewrite (read_trace_short w Hs).
    unfold feof, drained. cbn [f_eof]. rewrite Hf.
    now rewrite orb_true_r.
  - intros Hl w'. split; intros H.
    + destruct (read_trace_return_value _ _ _ Hcap Hl H) as (n & _ & _ & _ & Hr & Hn).
      lia.
    + apply read_trace_exits in H. destruct H as [(_ & Hs & _) | (Hs & _)]; lia.
Qed.

(** The capacity check: a length over the capacity is the exit with status 4. *)
Lemma read_trace_over_capacity (w : world) :
  4 <= bytes_left w -> batch_length w > TRACE_BUFFER_CAPACITY ->
  read_trace w =
    Exit 4 (fprintf_stderr (TraceLengthExceedsCapacity (batch_length w))
                           (after_length w)).
Proof.
  intros Hl Hg. rewrite (read_trace_length_read w Hl).
  destruct (Z.gtb_spec (batch_length w) TRACE_BUFFER_CAPACITY); [reflexivity | lia].
Qed.

(** C7.  A batch whose declared length exceeds the capacity makes read_trace
    exit with status 4 right after the length field: nothing was written to
    the output, the record buffer is untouched, and no byte of the batch's
    records was consumed. *)
Theorem oversized_batch_rejected (w : world) :
  4 <= bytes_left w -> batch_length w > TRACE_BUFFER_CAPACITY ->
  read_trace w =
    Exit 4 (fprintf_stderr (TraceLengthExceedsCapacity (batch_length w))
                           (after_length w)) /\
  csv_file (final_world (read_trace w)) = csv_file w /\
  trace (final_world (read_trace w)) = trace w /\
  f_data (trace_file (final_world (read_trace w))) = skipn 4 (f_data (trace_file w)).
Proof.
  intros Hl Hg. rewrite (read_trace_over_capacity w Hl Hg). repeat split.
Qed.

(** An empty batch: the block read transfers nothing and the loop over the
    records does not run. *)
Lemma read_trace_empty_batch (w : world) :
  0 <= TRACE_BUFFER_CAPACITY -> 4 <= bytes_left w -> batch_length w = 0 ->
  read_trace w = Return 1 (after_length w).
Proof.
  intros Hcap Hl Hz. rewrite (read_trace_length_read w Hl), Hz.
  destruct (Z.gtb_spec 0 TRACE_BUFFER_CAPACITY); [lia |].
  change (fread sizeof_trace_record_t (to_size_t 0) (advanced 4 (trace_file w)))
    with (0, @nil byte, advanced 4 (trace_file w)).
  cbv zeta. cbn [length Z.of_nat].
  destruct (Z.gtb_spec 0 (sizeof_trace_record_t * TRACE_BUFFER_CAPACITY));
    [unfold sizeof_trace_record_t in *; lia |].
  destruct w; reflexivity.
Qed.

(** C9.  For a batch whose declared length is 0, read_trace writes no row and
    returns 1, the count of the length field, so the loop of main goes on
    with the bytes that follow instead of ending. *)
Theorem empty_batch_continues (w : world) :
  0 <= TRACE_BUFFER_CAPACITY -> 4 <= bytes_left w -> batch_length w = 0 ->
  read_trace w = Return 1 (after_length w) /\
  csv_file (after_length w) = csv_file w /\
  forall fuel, read_all (S fuel) w = read_all fuel (after_length w).
Proof.
  intros Hcap Hl Hz.
  pose proof (read_trace_empty_batch w Hcap Hl Hz) as E.
  repeat split; [assumption |].
  intros fuel. cbn. rewrite E. reflexivity.
Qed.

(** C10.  The capacity check rejects a length exactly when it is greater
    than the capacity.  A negative declared batch length passes it: the call
    does not exit, prints no diagnostic and writes no row. *)
Theorem negative_length_passes_check (w : world) :
  0 <= TRACE_BUFFER_CAPACITY -> 4 <= bytes_left w -> batch_length w < 0 ->
  (forall s w', read_trace w <> Exit s w') /\
  stderr (final_world (read_trace w)) = stderr w /\
  csv_file (final_world (read_trace w)) = csv_file w /\
  (forall w0, 4 <= bytes_left w0 ->
     (exists s w', read_trace w0 = Exit s w') <->
     batch_length w0 > TRACE_BUFFER_CAPACITY).
Proof.
  intros Hcap Hl Hn. split; [| split; [| split]].
  - intros s w' H. apply read_trace_exits in H.
    destruct H as [(_ & Hs & _) | (_ & _ & Hg)]; lia.
  - rewrite (read_trace_length_read w Hl).
    destruct (Z.gtb_spec (batch_length w) TRACE_BUFFER_CAPACITY); [lia |].
    destruct (fread _ _ _) as [[n bs] f]. cbv zeta.
    destruct (Z.of_nat (length bs) >? _); [reflexivity |].
    replace (Z.to_nat (batch_length w)) with 0%nat by lia.
    reflexivity.
  - rewrite (read_trace_length_read w Hl).
    destruct (Z.gtb_spec (batch_length w) TRACE_BUFFER_CAPACITY); [lia |].
    destruct (fread _ _ _) as [[n bs] f]. cbv zeta.
    destruct (Z.of_nat (length bs) >? _); [reflexivity |].
    replace (Z.to_nat (batch_length w)) with 0%nat by lia.
    reflexivity.
  - intros w0 Hl0. split.
    + intros (s & w' & H). apply read_trace_exits in H.
      destruct H as [(_ & Hs & _) | (_ & _ & Hg)]; [lia | exact Hg].
    + intros Hg. eexists _, _. apply (read_trace_over_capacity w0 Hl0 Hg).
Qed.

(** ** The reaction column *)

Lemma substring_length_le (s : string) : forall n m : nat,
  (String.length (substring n m s) <= m)%nat.
Proof.
  induction s as [| c s IH]; intros [| n] [| m]; cbn; try lia.
  - specialize (IH 0%nat m). lia.
  - apply (IH n 0%nat).
  - apply (IH n (S m)).
Qed.

(** Up to 999 the decimal text fits the three characters [snprintf] keeps
    (checked on each of the thousand values). *)
Lemma snprintf_d_fits (z : Z) :
  0 <= z <= 999 -> snprintf_d 4 z = decimal z.
Proof.
  intros Hz.
  assert (Hall : forallb
                   (fun k => String.eqb (snprintf_d 4 (Z.of_nat k)) (decimal (Z.of_nat k)))
                   (seq 0 1000) = true) by (vm_compute; reflexivity).
  rewrite forallb_forall in Hall.
  specialize (Hall (Z.to_nat z)).
  rewrite Z2Nat.id in Hall by lia.
  apply String.eqb_eq, Hall, in_seq. lia.
Qed.

(** C4 (as amended).  When the four bytes for the text can be allocated, the
    reaction column is "none" for a negative reaction number, the decimal
    text of the number from 0 to 999 (so 0 gives "0" and 7 gives "7"), and
    the first three characters of the decimal text from 1000 on: the text
    never has more than three characters. *)
Theorem reaction_name_rendering (r : trace_record_t) (w : world) :
  4 <= heap w ->
  (reaction_number r < 0 -> reaction_name r w = Return "none"%string w) /\
  (0 <= reaction_number r <= 999 ->
     reaction_name r w =
       Return (decimal (reaction_number r)) (set_heap (heap w - 4) w)) /\
  (1000 <= reaction_number r ->
     reaction_name r w =
       Return (substring 0 3 (decimal (reaction_number r)))
              (set_heap (heap w - 4) w)) /\
  (0 <= reaction_number r ->
     exists name w', reaction_name r w = Return name w' /\
                     (String.length name <= 3)%nat) /\
  decimal 0 = "0"%string /\ decimal 7 = "7"%string.
Proof.
  intros Hheap.
  destruct (reaction_name_cases r w) as [(Hn & E) | [(Hp & _ & E) | (_ & Hh & _)]];
    [| | lia]; rewrite E.
  - repeat split; try reflexivity; intros; lia.
  - repeat split; try reflexivity; try (intros; lia).
    + intros Hr. now rewrite snprintf_d_fits.
    + intros _. eexists _, _. split; [reflexivity |].
      apply substring_length_le.
Qed.

(** ** The event column *)

Lemma event_name_in_range (e : Z) :
  0 <= e < Z.of_nat (length trace_event_names) ->
  exists event,
    nth_error trace_event_names (Z.to_nat e) = Some event /\
    event_name e = Some event.
Proof.
  intros He. unfold event_name.
  destruct (Z.ltb_spec e 0); [lia |].
  destruct (nth_error trace_event_names (Z.to_nat e)) as [event |] eqn:E; [eauto |].
  apply nth_error_None in E. lia.
Qed.

Lemma event_name_out_of_range (e : Z) :
  ~ 0 <= e < Z.of_nat (length trace_event_names) -> event_name e = None.
Proof.
  intros He. unfold event_name.
  destruct (Z.ltb_spec e 0); [reflexivity |].
  apply nth_error_None. lia.
Qed.

(** C2 (as amended).  read_trace does not validate the event kind: it indexes
    [trace_event_names] with [event_type] as read.  For a kind that is an
    index of the table the Event column is that entry of the table; for any
    other kind the index falls outside the table, which is undefined
    behaviour and no exit.  The only exits of read_trace are those taken
    before a record is looked at, with status 3 and 4. *)
Theorem event_kind_unchecked (i : Z) (w w1 : world) (name : string) :
  reaction_name (trace_record w i) w = Return name w1 ->
  (0 <= event_type (trace_record w i) < Z.of_nat (length trace_event_names) ->
     exists event,
       nth_error trace_event_names (Z.to_nat (event_type (trace_record w i)))
         = Some event /\
       forall description,
         get_description w (self_struct (trace_record w i)) = inr (Some description) ->
         write_line i w =
           Return tt
             (fprintf_csv
                (csv_line event description name (worker (trace_record w i))
                   (sub_instant (logical_time (trace_record w i)) (start_time w))
                   (microstep (trace_record w i))
                   (sub_instant (physical_time (trace_record w i)) (start_time w)))
                w1)) /\
  (~ 0 <= event_type (trace_record w i) < Z.of_nat (length trace_event_names) ->
     write_line i w = Undefined IndexOutOfRange w1) /\
  (forall w0 s w', read_trace w0 = Exit s w' ->
     (s = 3 /\ bytes_left w0 < 4) \/
     (s = 4 /\ batch_length w0 > TRACE_BUFFER_CAPACITY)).
Proof.
  intros Hn.
  pose proof (reaction_name_same_input (trace_record w i) w) as (Hs & _ & _).
  rewrite Hn in Hs. cbn [final_world] in Hs.
  split; [| split].
  - intros He. destruct (event_name_in_range _ He) as (event & Hnth & Hev).
    exists event. split; [assumption |].
    intros d Hd. unfold write_line. rewrite Hn. cbn [bind].
    rewrite Hev, (get_description_same_input _ _ _ Hs), Hd.
    destruct Hs as (_ & _ & Hst & _). now rewrite Hst.
  - intros He. unfold write_line. rewrite Hn. cbn [bind].
    now rewrite (event_name_out_of_range _ He).
  - intros w0 s w' H. apply read_trace_exits in H.
    destruct H as [(-> & Hb & _) | (-> & _ & Hg)]; [left | right]; auto.
Qed.

(** ** The reactor column *)

(** A scan that meets no entry for [object] ends on the sentinel. *)
Lemma scan_descriptions_miss (table : list object_description_t) :
  forall (n object : Z),
    (forall i, 0 <= i < n ->
       od_object (nth (Z.to_nat i) table (mkDescription 0 None)) <> object) ->
    scan_descriptions table n object = Some NO_DESCRIPTION_FOUND.
Proof.
  induction table as [| e rest IH]; intros n object Hmiss; cbn [scan_descriptions];
    destruct (Z.leb_spec n 0) as [Hn | Hn]; try reflexivity.
  - destruct (Z.eqb_spec object 0) as [-> | _]; [| reflexivity].
    exfalso. apply (Hmiss 0); [lia | reflexivity].
  - destruct (Z.eqb_spec (od_object e) object) as [E | NE].
    + exfalso. apply (Hmiss 0); [lia | exact E].
    + apply IH. intros i Hi. specialize (Hmiss (i + 1) ltac:(lia)).
      replace (Z.to_nat (i + 1)) with (S (Z.to_nat i)) in Hmiss by lia.
      exact Hmiss.
Qed.

(** C6 (as amended).  When the table has been allocated, or is declared
    empty, get_description returns "NO DESCRIPTION FOUND" for an object that
    no entry of the table describes, and a record of that object whose event
    kind is in the name table and whose reaction name has been rendered is
    printed as a row like any other, with that text as its Reactor column. *)
Theorem get_description_miss (w : world) (object : Z) :
  (0 < object_descriptions_size w -> object_descriptions w <> None) ->
  ~ described w object ->
  get_description w object = inr (Some "NO DESCRIPTION FOUND"%string) /\
  forall i event name w1,
    self_struct (trace_record w i) = object ->
    event_name (event_type (trace_record w i)) = Some event ->
    reaction_name (trace_record w i) w = Return name w1 ->
    write_line i w =
      Return tt
        (fprintf_csv
           (event ++ ", " ++ "NO DESCRIPTION FOUND" ++ ", " ++ name ++ ", " ++
            decimal (worker (trace_record w i)) ++ ", " ++
            decimal (sub_instant (logical_time (trace_record w i)) (start_time w))
            ++ ", " ++
            decimal (microstep (trace_record w i)) ++ ", " ++
            decimal (sub_instant (physical_time (trace_record w i)) (start_time w))
            ++ String (ascii_of_nat 10) EmptyString)%string
           w1).
Proof.
  intros Halloc Hmiss.
  assert (Hd : get_description w object = inr (Some NO_DESCRIPTION_FOUND)).
  { unfold get_description.
    destruct (Z.leb_spec (object_descriptions_size w) 0) as [Hn | Hn]; [reflexivity |].
    destruct (object_descriptions w) as [table |] eqn:Et;
      [| exfalso; now apply Halloc].
    f_equal. apply scan_descriptions_miss.
    intros i Hi Ho. apply Hmiss. exists i, table. auto. }
  split; [exact Hd |].
  intros i event name w1 Hobj Hev Hn.
  pose proof (reaction_name_same_input (trace_record w i) w) as (Hs & _ & _).
  rewrite Hn in Hs. cbn [final_world] in Hs.
  unfold write_line. rewrite Hn. cbn [bind].
  rewrite Hev, (get_description_same_input _ _ _ Hs), Hobj, Hd.
  destruct Hs as (_ & _ & Hst & _). now rewrite Hst.
Qed.

(** ** The time columns *)

Lemma sub_instant_range (a b : Z) : - 2 ^ 63 <= sub_instant a b < 2 ^ 63.
Proof.
  unfold sub_instant, wrap. change (2 ^ (64 - 1)) with (2 ^ 63).
  pose proof (Z.mod_pos_bound (a - b + 2 ^ 63) (2 ^ 64) ltac:(lia)). lia.
Qed.

Lemma sub_instant_congruent (a b : Z) :
  (sub_instant a b - (a - b)) mod 2 ^ 64 = 0.
Proof.
  unfold sub_instant, wrap. change (2 ^ (64 - 1)) with (2 ^ 63).
  rewrite (Z.mod_eq (a - b + 2 ^ 63) (2 ^ 64)) by lia.
  replace (a - b + 2 ^ 63 - 2 ^ 64 * ((a - b + 2 ^ 63) / 2 ^ 64) - 2 ^ 63 - (a - b))
    with (- ((a - b + 2 ^ 63) / 2 ^ 64) * 2 ^ 64) by lia.
  apply Z.mod_mul. lia.
Qed.

Lemma sub_instant_exact (a b : Z) :
  - 2 ^ 63 <= a - b < 2 ^ 63 -> sub_instant a b = a - b.
Proof.
  intros H. unfold sub_instant, wrap. change (2 ^ (64 - 1)) with (2 ^ 63).
  rewrite Z.mod_small; lia.
Qed.

(** The text a number is printed as reads back as that number: no digit is
    lost or altered in printing. *)
Lemma read_decimal_decimal (z : Z) : read_decimal (decimal z) = Some z.
Proof.
  unfold read_decimal, decimal.
  rewrite NilZero.isi.
  - cbn [option_map]. now rewrite DecimalZ.of_to.
  - destruct z; cbn; try discriminate.
    intros [= H]. now apply Unsigned.to_uint_nonnil in H.
  - destruct z; cbn; try discriminate.
    intros [= H]. now apply Unsigned.to_uint_nonnil in H.
Qed.

(** A record that ends in undefined behaviour has written nothing. *)
Lemma write_line_undefined (i : Z) (w w1 : world) (f : fault) :
  write_line i w = Undefined f w1 -> csv_file w1 = csv_file w.
Proof.
  unfold write_line.
  destruct (reaction_name_cases (trace_record w i) w)
    as [(_ & E1) | [(_ & _ & E1) | (_ & _ & E1)]]; rewrite E1; cbn [bind];
    repeat match goal with
           | |- context [match ?x with _ => _ end] => destruct x
           end;
    intros H; inversion H; subst; reflexivity.
Qed.

(** The output of the loop however it ends: the rows of the records it got
    through, in order, each with the fields of its record; all of them when
    it runs to its end. *)
Lemma write_lines_rows_any (n : nat) : forall (i : Z) (w : world),
  exists rows,
    csv_file (final_world (write_lines n i w)) = csv_file w ++ rows /\
    (forall w', write_lines n i w = Return tt w' -> length rows = n) /\
    forall k, (k < length rows)%nat ->
      exists event description name,
        nth k rows EmptyString =
          csv_line event description name
                   (worker (trace_record w (i + Z.of_nat k)))
                   (sub_instant (logical_time (trace_record w (i + Z.of_nat k)))
                                (start_time w))
                   (microstep (trace_record w (i + Z.of_nat k)))
                   (sub_instant (physical_time (trace_record w (i + Z.of_nat k)))
                                (start_time w)).
Proof.
  induction n as [| n IH]; intros i w.
  - exists []. cbn. rewrite app_nil_r. repeat split. intros k Hk; lia.
  - cbn [Nat.add]. change (write_lines (S n) i w)
      with (do (_, w1) <- write_line i w; write_lines n (i + 1) w1).
    pose proof (write_line_same_input i w) as (Hs & Hx).
    destruct (write_line i w) as [[] w1 | s w1 | f w1] eqn:El;
      cbn [bind final_world] in *.
    + destruct (write_line_returns _ _ _ El) as (event & d & name & w0 & Hn & _ & _ & Hw).
      cbv zeta in Hn, Hw.
      pose proof (reaction_name_same_input (trace_record w i) w) as (_ & Hcsv & _).
      rewrite Hn in Hcsv. cbn [final_world] in Hcsv.
      destruct (IH (i + 1) w1) as (rows & Hc & Hall & Hrows).
      eexists (_ :: rows). split; [| split].
      * rewrite Hc, Hw. cbn [csv_file fprintf_csv]. rewrite Hcsv, <- app_assoc.
        reflexivity.
      * intros w' H. cbn [length]. f_equal. exact (Hall w' H).
      * intros [| k] Hk.
        -- rewrite Z.add_0_r. exists event, d, name. reflexivity.
        -- cbn [length] in Hk.
           destruct (Hrows k ltac:(lia)) as (ev' & d' & n' & Hnth).
           replace (i + Z.of_nat (S k)) with (i + 1 + Z.of_nat k) by lia.
           rewrite (trace_record_same_input _ _ _ Hs) in Hnth.
           destruct Hs as (_ & _ & Hst & _). rewrite Hst in Hnth.
           exists ev', d', n'. exact Hnth.
    + exfalso. apply (Hx s w1). reflexivity.
    + exists []. rewrite app_nil_r.
      split; [apply (write_line_undefined _ _ _ _ El) |].
      split; [discriminate | intros k Hk; cbn [length] in Hk; lia].
Qed.

(** C8.  Every row a call of read_trace writes, however the call ends, is
    the text of the seven columns of the record it prints, and its two time
    columns are the decimal texts of the record's logical time minus the
    start time and of its physical time minus the start time, each reduced
    to a signed 64-bit integer by wrap-around.  The text of a number reads
    back as that number, so nothing is lost at printing; the value printed
    is congruent to the difference modulo 2^64 and lies in the signed range,
    so it is the difference itself when that fits and its wrapped value
    otherwise, never a clamped one. *)
Theorem elapsed_times_wrap (w : world) :
  (exists rows,
     csv_file (final_world (read_trace w)) = csv_file w ++ rows /\
     (forall r w', 4 <= bytes_left w -> read_trace w = Return r w' ->
        length rows = Z.to_nat (batch_length w)) /\
     forall k, (k < length rows)%nat ->
       exists event description name,
         nth k rows EmptyString =
           (event ++ ", " ++ description ++ ", " ++ name ++ ", " ++
            decimal (worker (trace_record (final_world (read_trace w)) (Z.of_nat k)))
            ++ ", " ++
            decimal
              (sub_instant
                 (logical_time (trace_record (final_world (read_trace w)) (Z.of_nat k)))
                 (start_time w))
            ++ ", " ++
            decimal (microstep (trace_record (final_world (read_trace w)) (Z.of_nat k)))
            ++ ", " ++
            decimal
              (sub_instant
                 (physical_time (trace_record (final_world (read_trace w)) (Z.of_nat k)))
                 (start_time w))
            ++ String (ascii_of_nat 10) EmptyString)%string) /\
  (forall z, read_decimal (decimal z) = Some z) /\
  (forall a b, - 2 ^ 63 <= sub_instant a b < 2 ^ 63 /\
               (sub_instant a b - (a - b)) mod 2 ^ 64 = 0) /\
  (forall a b, - 2 ^ 63 <= a - b < 2 ^ 63 -> sub_instant a b = a - b).
Proof.
  split; [| split; [apply read_decimal_decimal | split]].
  - assert (Hnil : forall w0 : world,
               final_world (read_trace w) = w0 ->
               csv_file w0 = csv_file w ->
               (forall r w', 4 <= bytes_left w -> read_trace w = Return r w' ->
                  Z.to_nat (batch_length w) = 0%nat) ->
               exists rows,
                 csv_file (final_world (read_trace w)) = csv_file w ++ rows /\
                 (forall r w', 4 <= bytes_left w -> read_trace w = Return r w' ->
                    length rows = Z.to_nat (batch_length w)) /\
                 forall k, (k < length rows)%nat ->
                   exists event description name,
                     nth k rows EmptyString =
                       (event ++ ", " ++ description ++ ", " ++ name ++ ", " ++
                        decimal (worker (trace_record (final_world (read_trace w))
                                                      (Z.of_nat k))) ++ ", " ++
                        decimal (sub_instant
                                   (logical_time (trace_record (final_world (read_trace w))
                                                               (Z.of_nat k)))
                                   (start_time w)) ++ ", " ++
                        decimal (microstep (trace_record (final_world (read_trace w))
                                                         (Z.of_nat k))) ++ ", " ++
                        decimal (sub_instant
                                   (physical_time (trace_record (final_world (read_trace w))
                                                                (Z.of_nat k)))
                                   (start_time w)) ++
                        String (ascii_of_nat 10) EmptyString)%string).
    { intros w0 Hfw Hc Hz. exists []. rewrite app_nil_r, Hfw.
      split; [exact Hc |]. split.
      - intros r w' Hl H. cbn [length]. symmetry. exact (Hz r w' Hl H).
      - intros k Hk. cbn [length] in Hk. lia. }
    destruct (Z.lt_ge_cases (bytes_left w) 4) as [Hs | Hl].
    + pose proof (read_trace_short w Hs) as E.
      destruct (feof (drained (trace_file w)));
        [apply (Hnil (at_end w))
        | apply (Hnil (fprintf_stderr FailedToReadTraceLength (at_end w)))];
        try (rewrite E; reflexivity); try reflexivity;
        intros r w' Hl' _; lia.
    + pose proof (read_trace_length_read w Hl) as E.
      destruct (Z.gtb_spec (batch_length w) TRACE_BUFFER_CAPACITY) as [G | L].
      { apply (Hnil (fprintf_stderr (TraceLengthExceedsCapacity (batch_length w))
                                    (after_length w)));
          [rewrite E; reflexivity | reflexivity |].
        intros r w' _ H. rewrite E in H. discriminate H. }
      destruct (fread sizeof_trace_record_t (to_size_t (batch_length w))
                      (advanced 4 (trace_file w))) as [[n bs] f] eqn:Ef.
      cbv zeta in E.
      destruct (Z.of_nat (length bs) >? sizeof_trace_record_t * TRACE_BUFFER_CAPACITY).
      { apply (Hnil (set_trace_file f (after_length w)));
          [rewrite E; reflexivity | reflexivity |].
        intros r w' _ H. rewrite E in H. discriminate H. }
      set (w2 := set_trace (overwrite bs (trace w)) (set_trace_file f (after_length w)))
        in E.
      pose proof (write_lines_same_input (Z.to_nat (batch_length w)) 0 w2) as (Hs & _).
      destruct (write_lines_rows_any (Z.to_nat (batch_length w)) 0 w2)
        as (rows & Hc & Hall & Hrows).
      assert (Hfw : final_world (read_trace w)
                    = final_world (write_lines (Z.to_nat (batch_length w)) 0 w2)).
      { rewrite E. destruct (write_lines _ _ _); reflexivity. }
      rewrite Hfw. exists rows. split; [exact Hc |]. split.
      * intros r w' _ H. rewrite E in H.
        destruct (write_lines (Z.to_nat (batch_length w)) 0 w2) as [[] w3 | |] eqn:Ew;
          cbn [bind] in H; try discriminate H.
        exact (Hall w3 eq_refl).
      * intros k Hk. destruct (Hrows k Hk) as (event & d & name & Hnth).
        rewrite Z.add_0_l in Hnth.
        exists event, d, name.
        rewrite (trace_record_same_input _ _ _ Hs). exact Hnth.
  - intros a b. split; [apply sub_instant_range | apply sub_instant_congruent].
  - apply sub_instant_exact.
Qed.

(** ** A batch that is read in full *)

Lemma fread_full (size nmemb : Z) (f : FILE) :
  0 < size -> 0 <= nmemb -> size * nmemb <= Z.of_nat (length (f_data f)) ->
  exists bs f', fread size nmemb f = (nmemb, bs, f').
Proof.
  intros Hs Hn Hle. unfold fread.
  destruct (Z.eqb_spec (size * nmemb) 0) as [E | NE].
  - assert (nmemb = 0) by nia. subst. eauto.
  - destruct (Z.leb_spec (size * nmemb) (Z.of_nat (length (f_data f)))); [eauto | lia].
Qed.

(** When the records a batch declares are all in the file, the value
    read_trace returns is their number plus one, the one being the length
    field, and as many rows as records were written. *)
Lemma read_trace_full_batch (w w' : world) (r : Z) :
  0 <= TRACE_BUFFER_CAPACITY < 2 ^ 31 - 1 ->
  4 <= bytes_left w -> 0 <= batch_length w ->
  sizeof_trace_record_t * batch_length w <= bytes_left w - 4 ->
  read_trace w = Return r w' ->
  r = batch_length w + 1 /\
  exists rows, csv_file w' = csv_file w ++ rows /\
               Z.of_nat (length rows) = batch_length w.
Proof.
  intros Hcap Hl Hn Hall H.
  destruct (read_trace_return_value _ _ _ Hcap Hl H) as (n & bs & f & Ef & Hr & _).
  destruct (read_trace_returns _ _ _ Hl H) as (n' & bs' & f' & Ef' & Hle & _ & Hw & _).
  assert (Hsz : to_size_t (batch_length w) = batch_length w)
    by (unfold to_size_t; apply Z.mod_small; lia).
  rewrite Hsz in *.
  destruct (fread_full sizeof_trace_record_t (batch_length w) (advanced 4 (trace_file w)))
    as (bs0 & f0 & E0).
  { unfold sizeof_trace_record_t; lia. }
  { exact Hn. }
  { unfold advanced, bytes_left in *. cbn [f_data]. rewrite length_skipn. lia. }
  rewrite E0 in Ef. inversion Ef; subst n bs f.
  split; [lia |].
  destruct (write_lines_returns _ _ _ _ Hw) as (rows & Hc & Hlen & _).
  exists rows. split; [exact Hc | lia].
Qed.

End Properties.

(** ** The program on the sample inputs *)

(** C3, on a header that declares -1 objects: the allocation of the table
    fails, read_header reports it and returns -1, that is the largest
    [size_t]; the test of main holds all the same, and main goes on to decode
    the batch that follows and to write its row. *)
Theorem main_decodes_after_allocation_failure (LF : world -> outcome Z) :
  exists w1 w2,
    read_header LF (initial_world (stream negative_count_file) 4096)
      = Return (2 ^ 64 - 1) w1 /\
    object_descriptions w1 = None /\
    stderr w1 = [MemoryAllocationFailure] /\
    main sample_capacity sample_event_names LF
         (initial_world (stream negative_count_file) 4096) = Some (Return 0 w2) /\
    csv_file w2 =
      [csv_header;
       csv_line "Reaction starts" NO_DESCRIPTION_FOUND "none" 0 500 0 600].
Proof.
  eexists _, _.
  split; [vm_compute; reflexivity |].
  split; [reflexivity |].
  split; [reflexivity |].
  split; [vm_compute; reflexivity |].
  vm_compute; reflexivity.
Qed.

(** C5, on a batch of one record: read_trace writes the one row and returns
    2, the record and the length field, where its documentation promises the
    number of records read. *)
Theorem read_trace_counts_length_field :
  exists w',
    read_trace sample_capacity sample_event_names one_record_world = Return 2 w' /\
    csv_file w' =
      csv_file one_record_world ++
      [csv_line "Reaction starts" "Reactor_A" "none" 0 500 0 600].
Proof.
  eexists. split; [vm_compute; reflexivity |].
  vm_compute; reflexivity.
Qed.

(** Two bytes where a batch length is expected, then the end of the file:
    read_trace returns 0, and main ends with status 0 and no diagnostic. *)
Lemma truncated_length_ends_normally :
  bytes_left truncated_world = 2 /\
  read_trace sample_capacity sample_event_names truncated_world
    = Return 0 (at_end truncated_world) /\
  (forall s w', read_trace sample_capacity sample_event_names truncated_world
                <> Exit s w') /\
  exists w',
    main sample_capacity sample_event_names sample_failure
         (initial_world (stream (sample_header ++ [x01; x00])) 4096)
      = Some (Return 0 w') /\
    stderr w' = [].
Proof.
  assert (E : read_trace sample_capacity sample_event_names truncated_world
              = Return 0 (at_end truncated_world)) by (vm_compute; reflexivity).
  split; [reflexivity |]. split; [exact E |]. split.
  - intros s w'. rewrite E. discriminate.
  - eexists. split; [vm_compute; reflexivity | reflexivity].
Qed.

Lemma read_trace_end_of_input_witness :
  0 <= sample_capacity < 2 ^ 31 - 1 /\
  bytes_left truncated_world < 4 /\
  read_trace sample_capacity sample_event_names truncated_world
    = Return 0 (at_end truncated_world) /\
  read_trace sample_capacity sample_event_names failing_world
    = Exit 3 (fprintf_stderr FailedToReadTraceLength (at_end failing_world)).
Proof.
  assert (Hcap : 0 <= sample_capacity < 2 ^ 31 - 1) by (unfold sample_capacity; lia).
  assert (Hs : bytes_left truncated_world < 4) by reflexivity.
  split; [exact Hcap |]. split; [exact Hs |]. split.
  - apply (proj1 (proj2 (read_trace_end_of_input
                           sample_capacity sample_event_names truncated_world Hcap)));
      reflexivity.
  - apply (proj1 (read_trace_end_of_input
                    sample_capacity sample_event_names failing_world Hcap)).
    reflexivity.
Defined.

(** A record whose event kind is 99, with a table of four names: the index is
    outside the table, nothing detects it, and read_trace neither exits nor
    prints a diagnostic. *)
Lemma garbled_event_kind_undetected :
  event_type (trace_record (final_world
     (read_trace sample_capacity sample_event_names garbled_world)) 0) = 99 /\
  length sample_event_names = 4%nat /\
  exists w',
    read_trace sample_capacity sample_event_names garbled_world
      = Undefined IndexOutOfRange w' /\
    stderr w' = [] /\ csv_file w' = csv_file garbled_world.
Proof.
  split; [vm_compute; reflexivity |]. split; [reflexivity |].
  eexists. split; [vm_compute; reflexivity |]. split; reflexivity.
Qed.

Lemma event_kind_unchecked_witness :
  reaction_name (trace_record (buffered_world [garbled_record]) 0)
                (buffered_world [garbled_record])
    = Return "none"%string (buffered_world [garbled_record]) /\
  write_line sample_event_names 0 (buffered_world [garbled_record])
    = Undefined IndexOutOfRange (buffered_world [garbled_record]).
Proof.
  assert (Hn : reaction_name (trace_record (buffered_world [garbled_record]) 0)
                             (buffered_world [garbled_record])
               = Return "none"%string (buffered_world [garbled_record]))
    by (vm_compute; reflexivity).
  split; [exact Hn |].
  apply (proj1 (proj2 (event_kind_unchecked
                         sample_capacity sample_event_names 0 _ _ _ Hn))).
  vm_compute. intros [_ H]. discriminate H.
Defined.

(** Reaction 1000 is printed as "100". *)
Lemma reaction_1000_loses_a_digit :
  reaction_number busy_record = 1000 /\
  decimal 1000 = "1000"%string /\
  reaction_name busy_record (loaded_world [])
    = Return "100"%string (set_heap 4092 (loaded_world [])) /\
  "100"%string <> decimal 1000.
Proof.
  repeat split; try (vm_compute; reflexivity). vm_compute. discriminate.
Qed.

Lemma reaction_name_rendering_witness :
  4 <= heap (loaded_world []) /\
  reaction_name stray_record (loaded_world [])
    = Return "7"%string (set_heap 4092 (loaded_world [])).
Proof.
  assert (Hh : 4 <= heap (loaded_world [])) by (cbn; lia).
  split; [exact Hh |].
  apply (proj1 (proj2 (reaction_name_rendering stray_record (loaded_world []) Hh))).
  cbn. lia.
Defined.

(** A header that declares 2147483647 objects, with 4096 bytes of heap: the
    allocation of the table fails, main goes on all the same, and the lookup
    for the first record, of an object that no entry describes, reads through
    the null table; the record gets no row. *)
Lemma lookup_through_null_table :
  read_header sample_failure (initial_world (stream huge_count_file) 4096)
    = Return (2 ^ 64 - 1)
        (final_world
           (read_header sample_failure (initial_world (stream huge_count_file) 4096))) /\
  object_descriptions
    (final_world
       (read_header sample_failure (initial_world (stream huge_count_file) 4096)))
    = None /\
  ~ described
      (final_world
         (read_header sample_failure (initial_world (stream huge_count_file) 4096)))
      reactor_a /\
  get_description
    (final_world
       (read_header sample_failure (initial_world (stream huge_count_file) 4096)))
    reactor_a = inl NullPointer /\
  exists w',
    main sample_capacity sample_event_names sample_failure
         (initial_world (stream huge_count_file) 4096)
      = Some (Undefined NullPointer w') /\
    csv_file w' = [csv_header].
Proof.
  split; [vm_compute; reflexivity |].
  split; [vm_compute; reflexivity |].
  split.
  - intros (i & table & _ & Ht & _). vm_compute in Ht. discriminate Ht.
  - split; [vm_compute; reflexivity |].
    eexists. split; vm_compute; reflexivity.
Qed.

Lemma get_description_miss_witness :
  self_struct (trace_record (buffered_world [stray_record]) 0) = 8192 /\
  get_description (buffered_world [stray_record]) 8192
    = inr (Some "NO DESCRIPTION FOUND"%string) /\
  write_line sample_event_names 0 (buffered_world [stray_record])
    = Return tt
        (fprintf_csv
           ("Reaction ends, NO DESCRIPTION FOUND, 7, 2, 1500, 1, 1600" ++ newline)%string
           (set_heap 4092 (buffered_world [stray_record]))).
Proof.
  assert (Hobj : self_struct (trace_record (buffered_world [stray_record]) 0) = 8192)
    by (vm_compute; reflexivity).
  destruct (get_description_miss sample_event_names (buffered_world [stray_record]) 8192)
    as (Hd & Hrow).
  - discriminate.
  - intros (i & table & Hi & Ht & Ho). cbn in Hi, Ht.
    inversion Ht; subst table. assert (i = 0) by lia. subst i.
    cbn in Ho. discriminate Ho.
  - split; [exact Hobj |]. split; [exact Hd |].
    rewrite (Hrow 0 "Reaction ends"%string "7"%string
               (set_heap 4092 (buffered_world [stray_record])) Hobj);
      vm_compute; reflexivity.
Defined.

Lemma oversized_batch_rejected_witness :
  4 <= bytes_left oversized_world /\
  batch_length oversized_world > sample_capacity /\
  read_trace sample_capacity sample_event_names oversized_world
    = Exit 4 (fprintf_stderr (TraceLengthExceedsCapacity (batch_length oversized_world))
                             (after_length oversized_world)).
Proof.
  assert (Hl : 4 <= bytes_left oversized_world) by (vm_compute; discriminate).
  assert (Hg : batch_length oversized_world > sample_capacity)
    by (vm_compute; reflexivity).
  split; [exact Hl |]. split; [exact Hg |].
  exact (proj1 (oversized_batch_rejected
                  sample_capacity sample_event_names oversized_world Hl Hg)).
Defined.

Lemma elapsed_times_wrap_witness :
  (exists rows,
     csv_file (final_world
                 (read_trace sample_capacity sample_event_names two_records_world))
       = csv_file two_records_world ++ rows /\
     length rows = 2%nat) /\
  csv_file (final_world
              (read_trace sample_capacity sample_event_names two_records_world))
    = [csv_header;
       ("Reaction ends, NO DESCRIPTION FOUND, 7, 2, 1500, 1, 1600" ++ newline)%string;
       ("Reaction starts, Reactor_A, none, 0, 9223372036854774807, 0, 9223372036854774808"
        ++ newline)%string] /\
  sub_instant (- 2 ^ 63) 1000 = 2 ^ 63 - 1000 /\
  read_decimal "9223372036854774808" = Some (2 ^ 63 - 1000) /\
  (exists w',
     read_trace sample_capacity sample_event_names faulted_batch_world
       = Undefined IndexOutOfRange w') /\
  csv_file (final_world
              (read_trace sample_capacity sample_event_names faulted_batch_world))
    = [csv_header;
       ("Reaction starts, Reactor_A, none, 0, 9223372036854774807, 0, 9223372036854774808"
        ++ newline)%string].
Proof.
  assert (Hl : 4 <= bytes_left two_records_world) by (vm_compute; discriminate).
  assert (Hr : read_trace sample_capacity sample_event_names two_records_world
               = Return 3 (final_world
                    (read_trace sample_capacity sample_event_names two_records_world)))
    by (vm_compute; reflexivity).
  destruct (elapsed_times_wrap sample_capacity sample_event_names two_records_world)
    as ((rows & Hc & Hlen & _) & Hread & _).
  split; [exists rows; split; [exact Hc | exact (Hlen _ _ Hl Hr)] |].
  split; [vm_compute; reflexivity |].
  split; [reflexivity |].
  split; [exact (Hread (2 ^ 63 - 1000)) |].
  split; [eexists; vm_compute; reflexivity | vm_compute; reflexivity].
Defined.

Lemma empty_batch_continues_witness :
  0 <= sample_capacity /\ 4 <= bytes_left empty_batch_world /\
  batch_length empty_batch_world = 0 /\
  read_trace sample_capacity sample_event_names empty_batch_world
    = Return 1 (after_length empty_batch_world) /\
  exists w',
    read_all sample_capacity sample_event_names 3 empty_batch_world
      = Some (Return tt w') /\
    csv_file w' =
      [csv_header; csv_line "Reaction starts" "Reactor_A" "none" 0 500 0 600].
Proof.
  assert (Hcap : 0 <= sample_capacity) by (unfold sample_capacity; lia).
  assert (Hl : 4 <= bytes_left empty_batch_world) by (vm_compute; discriminate).
  assert (Hz : batch_length empty_batch_world = 0) by reflexivity.
  split; [exact Hcap |]. split; [exact Hl |]. split; [exact Hz |].
  destruct (empty_batch_continues
              sample_capacity sample_event_names empty_batch_world Hcap Hl Hz)
    as (E & _ & Hloop).
  split; [exact E |].
  rewrite (Hloop 2%nat).
  eexists. split; [vm_compute; reflexivity |]. vm_compute; reflexivity.
Defined.

Lemma negative_length_passes_check_witness :
  0 <= sample_capacity /\ 4 <= bytes_left negative_length_world /\
  batch_length negative_length_world < 0 /\
  forall s w',
    read_trace sample_capacity sample_event_names negative_length_world <> Exit s w'.
Proof.
  assert (Hcap : 0 <= sample_capacity) by (unfold sample_capacity; lia).
  assert (Hl : 4 <= bytes_left negative_length_world) by (vm_compute; discriminate).
  assert (Hn : batch_length negative_length_world < 0) by reflexivity.
  split; [exact Hcap |]. split; [exact Hl |]. split; [exact Hn |].
  exact (proj1 (negative_length_passes_check
                  sample_capacity sample_event_names negative_length_world Hcap Hl Hn)).
Defined.

(** The minimal file end to end: the header line, then the row of its one
    record with the times taken from the start time 1000. *)
Example minimal_file_round_trip :
  exists w',
    main sample_capacity sample_event_names sample_failure
         (initial_world (stream minimal_file) 4096) = Some (Return 0 w') /\
    csv_file w' =
      [csv_header; csv_line "Reaction starts" "Reactor_A" "none" 0 500 0 600] /\
    stderr w' = [].
Proof.
  eexists. split; [vm_compute; reflexivity |].
  split; [vm_compute; reflexivity | reflexivity].
Qed.

(** ** Integers in the file *)

Lemma byte_value_of_Z (z : Z) : byte_value (byte_of_Z z) = z mod 256.
Proof.
  unfold byte_value, byte_of_Z.
  pose proof (Z.mod_pos_bound z 256 ltac:(lia)) as Hm.
  destruct (Byte.of_N (Z.to_N (z mod 256))) as [b |] eqn:E.
  - apply Byte.to_of_N in E. rewrite E. lia.
  - apply Byte.of_N_None_iff in E. lia.
Qed.

Lemma le_unsigned_le_bytes (n : nat) : forall z : Z,
  le_unsigned (le_bytes n z) = z mod 256 ^ Z.of_nat n.
Proof.
  induction n as [| n IH]; intros z.
  - cbn. now rewrite Z.mod_1_r.
  - cbn [le_bytes le_unsigned]. rewrite byte_value_of_Z, IH.
    rewrite Nat2Z.inj_succ, Z.pow_succ_r by lia.
    rewrite Z.rem_mul_r; [reflexivity | lia | apply Z.pow_pos_nonneg; lia].
Qed.

Lemma length_le_bytes (n : nat) : forall z : Z, length (le_bytes n z) = n.
Proof. induction n as [| n IH]; intros z; cbn; [| rewrite IH]; reflexivity. Qed.

(** An [int] written to the file is read back as it was. *)
Lemma decode_int_le_bytes (z : Z) :
  int_range z -> decode_int (le_bytes 4 z) = z.
Proof.
  unfold int_range, decode_int, wrap. intros Hz.
  rewrite le_unsigned_le_bytes.
  change (256 ^ Z.of_nat 4) with (2 ^ 32). change (2 ^ (32 - 1)) with (2 ^ 31).
  rewrite Zplus_mod_idemp_l, Z.mod_small; lia.
Qed.

Lemma decode_instant_le_bytes (z : Z) :
  instant_range z -> decode_instant (le_bytes 8 z) = z.
Proof.
  unfold instant_range, decode_instant, wrap. intros Hz.
  rewrite le_unsigned_le_bytes.
  change (256 ^ Z.of_nat 8) with (2 ^ 64). change (2 ^ (64 - 1)) with (2 ^ 63).
  rewrite Zplus_mod_idemp_l, Z.mod_small; lia.
Qed.

Lemma decode_pointer_le_bytes (z : Z) :
  pointer_range z -> decode_pointer (le_bytes 8 z) = z.
Proof.
  unfold pointer_range, decode_pointer. intros Hz.
  rewrite le_unsigned_le_bytes.
  change (256 ^ Z.of_nat 8) with (2 ^ 64).
  apply Z.mod_small. lia.
Qed.

Lemma length_encode_record (r : trace_record_t) :
  length (encode_record r) = 48%nat.
Proof. reflexivity. Qed.

(** A record written to the file with its fields in range is read back as it
    was, whatever follows it in memory. *)
Lemma decode_encode_record (r : trace_record_t) (mem : list byte) :
  record_in_range r ->
  decode_record (slice 0 48 (encode_record r ++ mem)) = r.
Proof.
  intros (H1 & H2 & H3 & H4 & H5 & H6 & H7).
  destruct r as [e s n k l m p]. cbn [event_type self_struct reaction_number worker
    logical_time microstep physical_time] in *.
  unfold decode_record.
  change (slice 0 4 (slice 0 48 (encode_record (mkRecord e s n k l m p) ++ mem)))
    with (le_bytes 4 e).
  change (slice 8 8 (slice 0 48 (encode_record (mkRecord e s n k l m p) ++ mem)))
    with (le_bytes 8 s).
  change (slice 16 4 (slice 0 48 (encode_record (mkRecord e s n k l m p) ++ mem)))
    with (le_bytes 4 n).
  change (slice 20 4 (slice 0 48 (encode_record (mkRecord e s n k l m p) ++ mem)))
    with (le_bytes 4 k).
  change (slice 24 8 (slice 0 48 (encode_record (mkRecord e s n k l m p) ++ mem)))
    with (le_bytes 8 l).
  change (slice 32 4 (slice 0 48 (encode_record (mkRecord e s n k l m p) ++ mem)))
    with (le_bytes 4 m).
  change (slice 40 8 (slice 0 48 (encode_record (mkRecord e s n k l m p) ++ mem)))
    with (le_bytes 8 p).
  rewrite !decode_int_le_bytes, !decode_instant_le_bytes, decode_pointer_le_bytes
    by assumption.
  reflexivity.
Qed.

(** ** Records in the buffer *)

Lemma length_encoded_records (rs : list trace_record_t) :
  length (flat_map encode_record rs) = (48 * length rs)%nat.
Proof.
  induction rs as [| r rs IH]; [reflexivity |].
  cbn [flat_map]. rewrite length_app, length_encode_record, IH. cbn [length]. lia.
Qed.

Lemma slice_after (pre mem : list byte) (len : nat) :
  slice (length pre) len (pre ++ mem) = slice 0 len mem.
Proof.
  unfold slice. rewrite skipn_app, skipn_all, Nat.sub_diag. reflexivity.
Qed.

Lemma buffered_records_step (w : world) (i : Z) (n : nat) :
  buffered_records w i (S n) = trace_record w i :: buffered_records w (i + 1) n.
Proof.
  unfold buffered_records. cbn [seq map]. rewrite Z.add_0_r. f_equal.
  rewrite <- seq_shift, map_map. apply map_ext. intros k. f_equal. lia.
Qed.

(** The records of a batch, once in the buffer after [i] others, are the
    records [trace\[i\]] onwards. *)
Lemma buffered_records_encoded (w : world) (rs : list trace_record_t) :
  Forall record_in_range rs ->
  forall (i : nat) (pre mem : list byte),
    length pre = (48 * i)%nat ->
    trace w = pre ++ flat_map encode_record rs ++ mem ->
    buffered_records w (Z.of_nat i) (length rs) = rs.
Proof.
  induction 1 as [| r rs Hr _ IH]; intros i pre mem Hpre Ht; [reflexivity |].
  cbn [length]. rewrite buffered_records_step. f_equal.
  - unfold trace_record, sizeof_trace_record_t.
    replace (Z.to_nat (48 * Z.of_nat i)) with (length pre) by lia.
    change (Z.to_nat 48) with 48%nat.
    rewrite Ht. cbn [flat_map]. rewrite <- app_assoc, slice_after.
    now apply decode_encode_record.
  - replace (Z.of_nat i + 1) with (Z.of_nat (S i)) by lia.
    apply (IH (S i) (pre ++ encode_record r) mem).
    + rewrite length_app, length_encode_record. lia.
    + rewrite Ht. cbn [flat_map]. now rewrite <- !app_assoc.
Qed.

(** ** Rows of records in range *)

Lemma reaction_bytes_app (rs1 rs2 : list trace_record_t) :
  reaction_bytes (rs1 ++ rs2) = reaction_bytes rs1 + reaction_bytes rs2.
Proof. induction rs1 as [| r rs1 IH]; cbn [app reaction_bytes]; lia. Qed.

Lemma reaction_bytes_nonneg (rs : list trace_record_t) : 0 <= reaction_bytes rs.
Proof.
  induction rs as [| r rs IH]; cbn [reaction_bytes]; [lia |].
  destruct (0 <=? reaction_number r); lia.
Qed.

Lemma rows_text_app (names : list string) (w : world)
    (rs1 rs2 : list trace_record_t) :
  rows_text names w (rs1 ++ rs2) = rows_text names w rs1 ++ rows_text names w rs2.
Proof. unfold rows_text. apply flat_map_app. Qed.

Lemma row_text_same_input (names : list string) (w w' : world)
    (r : trace_record_t) :
  same_input w w' -> row_text names w' r = row_text names w r.
Proof.
  intros Hs. unfold row_text.
  rewrite (get_description_same_input _ _ _ Hs).
  destruct Hs as (_ & _ & Hst & _). now rewrite Hst.
Qed.

Lemma rows_text_same_input (names : list string) (w w' : world)
    (rs : list trace_record_t) :
  same_input w w' -> rows_text names w' rs = rows_text names w rs.
Proof.
  intros Hs. unfold rows_text. apply flat_map_ext. intros r.
  now rewrite (row_text_same_input _ _ _ _ Hs).
Qed.

Lemma with_rows_same_input (lines : list string) (bytes : Z) (w : world) :
  same_input w (with_rows lines bytes w).
Proof. repeat split. Qed.

Lemma with_rows_twice (l1 l2 : list string) (b1 b2 : Z) (w : world) :
  with_rows l2 b2 (with_rows l1 b1 w) = with_rows (l1 ++ l2) (b1 + b2) w.
Proof.
  unfold with_rows. cbn. rewrite <- app_assoc. f_equal. lia.
Qed.

Lemma fprintf_csv_as_rows (line : string) (w : world) :
  fprintf_csv line w = with_rows [line] 0 w.
Proof.
  destruct w. unfold fprintf_csv, with_rows. cbn. f_equal. lia.
Qed.

Section Coverage.

Variable TRACE_BUFFER_CAPACITY : Z.
Variable trace_event_names : list string.
Variable LF_TRACE_FAILURE : world -> outcome Z.

Local Abbreviation write_line := (write_line trace_event_names).
Local Abbreviation write_lines := (write_lines trace_event_names).
Local Abbreviation read_trace := (read_trace TRACE_BUFFER_CAPACITY trace_event_names).
Local Abbreviation read_all := (read_all TRACE_BUFFER_CAPACITY trace_event_names).
Local Abbreviation read_header := (read_header LF_TRACE_FAILURE).
Local Abbreviation main :=
  (main TRACE_BUFFER_CAPACITY trace_event_names LF_TRACE_FAILURE).
Local Abbreviation row_text := (row_text trace_event_names).
Local Abbreviation rows_text := (rows_text trace_event_names).

(** One record whose row is defined, with the heap its reaction name needs:
    the row is written and the name's four bytes are gone. *)
Lemma write_line_row (i : Z) (w : world) (line : string) :
  row_text w (trace_record w i) = Some line ->
  reaction_bytes [trace_record w i] <= heap w ->
  write_line i w
    = Return tt (with_rows [line] (reaction_bytes [trace_record w i]) w).
Proof.
  unfold row_text, write_line, reaction_text. cbn [reaction_bytes].
  rewrite Z.add_0_r. intros Hrow Hheap.
  destruct (reaction_name_cases (trace_record w i) w)
    as [(Hn & E) | [(Hp & _ & E) | (Hp & Hh & _)]].
  - rewrite E. cbn [bind].
    destruct (Z.leb_spec 0 (reaction_number (trace_record w i))); [lia |].
    destruct (event_name _ _) as [event |]; [| discriminate].
    destruct (get_description w _) as [f | [d |]]; try discriminate.
    injection Hrow as <-. now rewrite fprintf_csv_as_rows.
  - rewrite E. cbn [bind].
    destruct (Z.leb_spec 0 (reaction_number (trace_record w i))); [| lia].
    destruct (event_name _ _) as [event |]; [| discriminate].
    change (get_description (set_heap (heap w - 4) w))
      with (get_description w).
    destruct (get_description w _) as [f | [d |]]; try discriminate.
    injection Hrow as <-. reflexivity.
  - destruct (Z.leb_spec 0 (reaction_number (trace_record w i))); lia.
Qed.

Lemma write_lines_step (n : nat) (i : Z) (w : world) :
  write_lines (S n) i w
    = do (_, w1) <- write_line i w; write_lines n (i + 1) w1.
Proof. reflexivity. Qed.

(** The loop over records whose rows are all defined runs to its end, writes
    their rows in order, and takes four bytes of heap for each reaction
    name, which it never gives back. *)
Lemma write_lines_rows (n : nat) : forall (i : Z) (w : world),
  Forall (fun r => row_text w r <> None) (buffered_records w i n) ->
  reaction_bytes (buffered_records w i n) <= heap w ->
  write_lines n i w
    = Return tt (with_rows (rows_text w (buffered_records w i n))
                           (reaction_bytes (buffered_records w i n)) w).
Proof.
  induction n as [| n IH]; intros i w Hrows Hheap.
  - cbn. unfold with_rows. destruct w; cbn. now rewrite app_nil_r, Z.sub_0_r.
  - rewrite buffered_records_step in *.
    inversion Hrows as [| r rs Hr Hrs]; subst r rs. clear Hrows.
    destruct (row_text w (trace_record w i)) as [line |] eqn:El; [| contradiction].
    cbn [reaction_bytes] in Hheap.
    pose proof (reaction_bytes_nonneg (buffered_records w (i + 1) n)) as Hnn.
    assert (H1 : reaction_bytes [trace_record w i] <= heap w)
      by (cbn [reaction_bytes]; lia).
    rewrite write_lines_step, (write_line_row _ _ _ El H1). cbn [bind].
    set (w1 := with_rows [line] (reaction_bytes [trace_record w i]) w).
    assert (Hs : same_input w w1) by apply with_rows_same_input.
    assert (Hb : buffered_records w1 (i + 1) n = buffered_records w (i + 1) n).
    { unfold buffered_records. apply map_ext. intros k.
      apply (trace_record_same_input _ _ _ Hs). }
    rewrite IH.
    + rewrite Hb, (rows_text_same_input _ _ _ _ Hs).
      unfold w1. rewrite with_rows_twice. f_equal. f_equal.
      * unfold rows_text at 2. cbn [flat_map]. now rewrite El.
      * cbn [reaction_bytes]. lia.
    + rewrite Hb. eapply Forall_impl; [| exact Hrs].
      intros r Hr'. now rewrite (row_text_same_input _ _ _ _ Hs).
    + rewrite Hb. unfold w1, with_rows. cbn [heap reaction_bytes]. lia.
Qed.

Lemma row_text_same_header (w w' : world) (r : trace_record_t) :
  start_time w' = start_time w ->
  object_descriptions w' = object_descriptions w ->
  object_descriptions_size w' = object_descriptions_size w ->
  row_text w' r = row_text w r.
Proof.
  intros Hst Ht Hs. unfold row_text, get_description. now rewrite Hst, Ht, Hs.
Qed.

Lemma rows_text_same_header (w w' : world) (rs : list trace_record_t) :
  start_time w' = start_time w ->
  object_descriptions w' = object_descriptions w ->
  object_descriptions_size w' = object_descriptions_size w ->
  rows_text w' rs = rows_text w rs.
Proof.
  intros Hst Ht Hs. unfold rows_text. apply flat_map_ext. intros r.
  now rewrite (row_text_same_header w w' r Hst Ht Hs).
Qed.

(** ** A batch as the runtime writes it *)

Lemma fread_prefix (size nmemb : Z) (bs rest : list byte) (a b c : bool) :
  0 < size -> 0 <= nmemb -> Z.of_nat (length bs) = size * nmemb ->
  fread size nmemb (mkFILE (bs ++ rest) a b c) = (nmemb, bs, mkFILE rest a b c).
Proof.
  intros Hs Hn Hlen. unfold fread. cbn [f_data f_faulty f_eof f_err].
  destruct (Z.eqb_spec (size * nmemb) 0) as [E | NE].
  - assert (nmemb = 0) by nia. subst nmemb.
    destruct bs; [reflexivity | cbn [length] in Hlen; lia].
  - rewrite length_app.
    destruct (Z.leb_spec (size * nmemb) (Z.of_nat (length bs + length rest)));
      [| lia].
    rewrite <- Hlen, Nat2Z.id.
    rewrite firstn_app, firstn_all, Nat.sub_diag, skipn_app, skipn_all, Nat.sub_diag.
    cbn [firstn skipn app]. now rewrite app_nil_r.
Qed.

(** A batch of records in range whose length field is their number, within
    the capacity, and whose rows are all defined: read_trace consumes exactly
    the batch, writes the rows of its records in order and returns their
    number plus one. *)
Lemma read_trace_well_formed_batch (w : world) (rs : list trace_record_t)
    (rest : list byte) :
  0 <= TRACE_BUFFER_CAPACITY < 2 ^ 31 - 1 ->
  Z.of_nat (length rs) <= TRACE_BUFFER_CAPACITY ->
  f_data (trace_file w) = encode_batch (Z.of_nat (length rs)) rs ++ rest ->
  Forall record_in_range rs ->
  Forall (fun r => row_text w r <> None) rs ->
  reaction_bytes rs <= heap w ->
  read_trace w
    = Return (Z.of_nat (length rs) + 1)
             (with_rows (rows_text w rs) (reaction_bytes rs) (after_batch rs rest w)).
Proof.
  intros Hcap Hn Hdata Hrange Hrows Hheap.
  destruct w as [[data fl e r] csv err st tbl sz buf hp].
  cbn [trace_file f_data heap] in Hdata, Hheap. subst data.
  set (n := Z.of_nat (length rs)) in *.
  set (w := mkWorld _ _ _ _ _ _ _ _) in *.
  assert (Hl : 4 <= bytes_left w).
  { unfold bytes_left, w, encode_batch. cbn [trace_file f_data].
    rewrite !length_app, length_le_bytes. lia. }
  assert (Hb : batch_length w = n).
  { unfold batch_length, w, encode_batch. cbn [trace_file f_data].
    rewrite <- app_assoc.
    change (firstn 4 (le_bytes 4 n ++ flat_map encode_record rs ++ rest))
      with (le_bytes 4 n).
    apply decode_int_le_bytes. unfold int_range. lia. }
  rewrite (read_trace_length_read _ _ w Hl), Hb.
  destruct (Z.gtb_spec n TRACE_BUFFER_CAPACITY); [lia |].
  assert (Hsz : to_size_t n = n) by (unfold to_size_t; apply Z.mod_small; lia).
  rewrite Hsz.
  assert (Hadv : advanced 4 (trace_file w)
                 = mkFILE (flat_map encode_record rs ++ rest) fl e r).
  { unfold advanced, w, encode_batch. cbn [trace_file f_data f_faulty f_eof f_err].
    now rewrite <- app_assoc. }
  rewrite Hadv.
  rewrite fread_prefix;
    [| unfold sizeof_trace_record_t; lia | lia
     | rewrite length_encoded_records; unfold sizeof_trace_record_t; lia].
  cbv zeta.
  destruct (Z.gtb_spec (Z.of_nat (length (flat_map encode_record rs)))
              (sizeof_trace_record_t * TRACE_BUFFER_CAPACITY)) as [G | _].
  { rewrite length_encoded_records in G. unfold sizeof_trace_record_t in G. lia. }
  set (w2 := set_trace _ _).
  assert (Hbuf : buffered_records w2 0 (Z.to_nat n) = rs).
  { unfold n. rewrite Nat2Z.id.
    apply (buffered_records_encoded w2 rs Hrange 0 []
             (skipn (length (flat_map encode_record rs)) buf)); reflexivity. }
  rewrite write_lines_rows; rewrite Hbuf.
  - cbn [bind]. rewrite wrap_32_small by lia. f_equal.
    unfold to_size_t. rewrite Z.mod_small by lia. lia.
  - eapply Forall_impl; [| exact Hrows]. intros x Hx.
    now rewrite (row_text_same_header w w2 x).
  - exact Hheap.
Qed.

(** ** A body of well-formed batches *)

Lemma read_all_next (fuel : nat) (w w' : world) (r : Z) :
  read_trace w = Return r w' -> r <> 0 -> read_all (S fuel) w = read_all fuel w'.
Proof.
  intros E Hr. cbn. rewrite E. destruct (Z.eqb_spec r 0); [contradiction | reflexivity].
Qed.

Lemma read_all_end (fuel : nat) (w w' : world) :
  read_trace w = Return 0 w' -> read_all (S fuel) w = Some (Return tt w').
Proof. intros E. cbn. now rewrite E. Qed.

(** The loop of main over a stream that holds well-formed batches and
    nothing else: it ends normally at the end of the file, having written the
    rows of all records in file order; the header data are as before, and the
    heap has lost the bytes of the reaction names. *)
Lemma read_all_batches (batches : list (list trace_record_t)) :
  forall (w : world) (fuel : nat),
    0 <= TRACE_BUFFER_CAPACITY < 2 ^ 31 - 1 ->
    (length batches < fuel)%nat ->
    f_data (trace_file w) = encode_batches batches ->
    f_faulty (trace_file w) = false ->
    Forall (fun rs => Z.of_nat (length rs) <= TRACE_BUFFER_CAPACITY) batches ->
    Forall record_in_range (concat batches) ->
    Forall (fun r => row_text w r <> None) (concat batches) ->
    reaction_bytes (concat batches) <= heap w ->
    exists w',
      read_all fuel w = Some (Return tt w') /\
      csv_file w' = csv_file w ++ rows_text w (concat batches) /\
      stderr w' = stderr w /\
      start_time w' = start_time w /\
      object_descriptions w' = object_descriptions w /\
      object_descriptions_size w' = object_descriptions_size w /\
      heap w' = heap w - reaction_bytes (concat batches) /\
      f_data (trace_file w') = [] /\ feof (trace_file w') = true.
Proof.
  induction batches as [| rs batches IH];
    intros w [| fuel] Hcap Hfuel Hdata Hfaulty Hlen Hrange Hrows Hheap;
    cbn [length] in Hfuel; try lia.
  - assert (Hs : bytes_left w < 4) by (unfold bytes_left; rewrite Hdata; cbn; lia).
    pose proof (read_trace_short TRACE_BUFFER_CAPACITY trace_event_names w Hs) as E.
    assert (Heof : feof (drained (trace_file w)) = true).
    { unfold feof, drained. cbn [f_eof]. rewrite Hfaulty. apply orb_true_r. }
    rewrite Heof in E. exists (at_end w).
    rewrite (read_all_end _ _ _ E). cbn [concat].
    repeat split; try reflexivity; try assumption.
    + unfold rows_text. cbn. now rewrite app_nil_r.
    + cbn [reaction_bytes at_end set_trace_file heap]. lia.
  - cbn [concat] in Hrange, Hrows, Hheap.
    apply Forall_app in Hrange as (Hrange1 & Hrange2).
    apply Forall_app in Hrows as (Hrows1 & Hrows2).
    rewrite reaction_bytes_app in Hheap.
    inversion Hlen as [| x xs Hlen1 Hlen2]; subst x xs.
    pose proof (reaction_bytes_nonneg (concat batches)) as Hnn.
    pose proof (reaction_bytes_nonneg rs) as Hnn1.
    assert (E : read_trace w
                = Return (Z.of_nat (length rs) + 1)
                    (with_rows (rows_text w rs) (reaction_bytes rs)
                               (after_batch rs (encode_batches batches) w))).
    { apply read_trace_well_formed_batch; try assumption; lia. }
    set (w1 := with_rows _ _ _) in E.
    rewrite (read_all_next fuel _ _ _ E) by lia.
    destruct (IH w1 fuel) as (w' & Hrun & Hcsv & Herr & Hst & Ht & Hsz & Hhp & Hd & He);
      try assumption; try lia; try reflexivity.
    + unfold w1, with_rows, after_batch. cbn [heap set_trace set_trace_file]. lia.
    + exists w'. split; [exact Hrun |].
      rewrite Hcsv, Herr, Hst, Ht, Hsz, Hhp, Hd, He.
      rewrite (rows_text_same_header w w1) by reflexivity.
      cbn [concat]. rewrite rows_text_app, reaction_bytes_app.
      unfold w1, with_rows, after_batch.
      cbn [csv_file stderr start_time object_descriptions object_descriptions_size
           heap set_trace set_trace_file].
      rewrite <- app_assoc. repeat split; try reflexivity. lia.
Qed.

(** ** A header as the runtime writes it *)

Lemma byte_of_ascii_nonzero (c : ascii) :
  c <> zero -> byte_value (byte_of_ascii c) <> 0.
Proof.
  destruct c as [[] [] [] [] [] [] [] []]; intros Hc; try discriminate.
  now contradiction Hc.
Qed.

Lemma length_list_ascii (s : string) :
  length (list_ascii_of_string s) = String.length s.
Proof. induction s as [| c s IH]; cbn; [| rewrite IH]; reflexivity. Qed.

Lemma string_of_bytes_of_string (s : string) :
  string_of_bytes (map byte_of_ascii (list_ascii_of_string s)) = s.
Proof.
  unfold string_of_bytes. rewrite map_map.
  rewrite (map_ext _ (fun c => c)) by apply ascii_of_byte_of_ascii.
  rewrite map_id. apply string_of_list_ascii_of_string.
Qed.

Lemma first_and_rest (ds rest : list byte) :
  ds ++ x00 :: rest = [hd x00 (ds ++ [x00])] ++ tl (ds ++ x00 :: rest).
Proof. destruct ds; reflexivity. Qed.

(** The loop that reads a description, on a text without null characters
    that fits the buffer and is followed by a null: it returns the text and
    leaves the stream after the null. *)
Lemma read_description_text (ds : list byte) :
  forall (room : nat) (rest : list byte) (a b c : bool),
    Forall (fun d => byte_value d <> 0) ds -> (length ds <= room)%nat ->
    read_description room (hd x00 (ds ++ [x00]))
                     (mkFILE (tl (ds ++ x00 :: rest)) a b c)
      = (Some ds, mkFILE rest a b c).
Proof.
  induction ds as [| d ds IH]; intros room rest a b c Hnz Hroom.
  - destruct room; reflexivity.
  - inversion Hnz as [| x xs Hd Hds]; subst x xs.
    destruct room as [| room]; [cbn [length] in Hroom; lia |].
    cbn [app hd tl read_description].
    destruct (Z.eqb_spec (byte_value d) 0) as [E | _]; [contradiction |].
    rewrite first_and_rest, fread_prefix by (cbn; unfold sizeof_char; lia).
    cbn [negb Z.eqb hd]. change (1 =? 1) with true. cbn [negb].
    rewrite IH; [reflexivity | assumption | cbn [length] in Hroom; lia].
Qed.

Lemma update_entry_append (t : list object_description_t)
    (g : object_description_t -> object_description_t) :
  update_entry (length t) g t = t ++ [g (mkDescription 0 None)].
Proof. induction t as [| e t IH]; cbn; [| rewrite IH]; reflexivity. Qed.

Lemma update_entry_last (t : list object_description_t)
    (g : object_description_t -> object_description_t) (e : object_description_t) :
  update_entry (length t) g (t ++ [e]) = t ++ [g e].
Proof. induction t as [| e' t IH]; cbn; [| rewrite IH]; reflexivity. Qed.

Lemma length_table_entries (t : list (Z * string)) :
  length (table_entries t) = length t.
Proof. apply length_map. Qed.

Lemma table_entries_app (t1 t2 : list (Z * string)) :
  table_entries (t1 ++ t2) = table_entries t1 ++ table_entries t2.
Proof. apply map_app. Qed.

(* The fields of a state given field by field, and its updates. *)
Ltac world_simpl :=
  cbn [negb set_trace_file set_start_time set_object_descriptions
       set_object_descriptions_size set_trace set_heap fprintf_csv fprintf_stderr
       update_description trace_file csv_file stderr start_time
       object_descriptions object_descriptions_size trace heap
       f_data f_faulty f_eof f_err].

(** The first entries of a well-formed table, read one after the other:
    the loop goes on with the entries that follow them. *)
Lemma read_entries_prefix (todo : list (Z * string)) :
  forall (k : nat) (done : list (Z * string)) (body : list byte) (fl e r : bool)
         (csv : list string) (err : list diagnostic) (st sz : Z)
         (buf : list byte) (hp : Z),
    Forall entry_ok todo ->
    description_bytes todo <= hp ->
    read_entries LF_TRACE_FAILURE (length todo + k) (length done)
      (mkWorld
         (mkFILE (flat_map (fun x => le_bytes 8 (fst x) ++ bytes_of_string (snd x)) todo
                  ++ body) fl e r)
         csv err st (Some (table_entries done)) sz buf hp)
    = read_entries LF_TRACE_FAILURE k (length done + length todo)
        (mkWorld (mkFILE body fl e r) csv err st
                 (Some (table_entries (done ++ todo))) sz buf
                 (hp - description_bytes todo)).
Proof.
  induction todo as [| [object s] todo IH];
    intros k done body fl e r csv err st sz buf hp Hok Hheap.
  - cbn [length flat_map app Nat.add description_bytes].
    now rewrite app_nil_r, Z.sub_0_r, Nat.add_0_r.
  - inversion Hok as [| x xs Hentry Hrest]; subst x xs.
    destruct Hentry as (Hobj & Hlen & Hnz). cbn [fst snd] in Hobj, Hlen, Hnz.
    cbn [description_bytes snd] in Hheap.
    assert (Hdb : 0 <= description_bytes todo).
    { clear. induction todo as [| x xs IHx]; cbn [description_bytes]; lia. }
    rewrite <- (length_table_entries done) at 1.
    cbn [length Nat.add read_entries flat_map fst snd trace_file].
    rewrite <- !app_assoc.
    rewrite fread_prefix
      by (rewrite ?length_le_bytes; unfold sizeof_pointer; cbn; lia).
    change (1 =? 1) with true. world_simpl.
    rewrite (decode_pointer_le_bytes _ Hobj), update_entry_append.
    unfold bytes_of_string. rewrite <- !app_assoc. cbn [app].
    set (ds := map byte_of_ascii (list_ascii_of_string s)).
    rewrite (first_and_rest ds), fread_prefix by (cbn; unfold sizeof_char; lia).
    change (1 =? 1) with true. world_simpl. cbn [hd].
    assert (Hds : Forall (fun d => byte_value d <> 0) ds).
    { unfold ds. apply Forall_map. eapply Forall_impl; [| exact Hnz].
      intros c. apply byte_of_ascii_nonzero. }
    assert (Hdl : length ds = String.length s).
    { unfold ds. now rewrite length_map, length_list_ascii. }
    rewrite read_description_text;
      [| exact Hds | unfold BUFFER_SIZE in *; lia].
    world_simpl. unfold malloc. world_simpl. rewrite Hdl.
    destruct (Z.leb_spec (Z.of_nat (String.length s) + 1) hp) as [_ | G]; [| lia].
    world_simpl. rewrite update_entry_last. cbn [od_object].
    unfold ds. rewrite string_of_bytes_of_string.
    specialize (IH k (done ++ [(object, s)]) body fl e r csv err st sz buf
                   (hp - (Z.of_nat (String.length s) + 1)) Hrest ltac:(lia)).
    rewrite <- (length_table_entries (done ++ [(object, s)])) in IH at 1.
    rewrite table_entries_app, length_app in IH.
    cbn [table_entries map fst snd length] in IH.
    replace (length (table_entries done) + 1)%nat
      with (S (length (table_entries done))) in IH by lia.
    refine (eq_trans IH _). f_equal.
    + rewrite length_app. cbn [length]. lia.
    + f_equal.
      * now rewrite <- app_assoc.
      * cbn [description_bytes snd]. lia.
Qed.

(** The entries of a well-formed table, read one after the other. *)
Lemma read_entries_well_formed (todo : list (Z * string)) :
  forall (done : list (Z * string)) (body : list byte) (fl e r : bool)
         (csv : list string) (err : list diagnostic) (st sz : Z)
         (buf : list byte) (hp : Z),
    Forall entry_ok todo ->
    description_bytes todo <= hp ->
    read_entries LF_TRACE_FAILURE (length todo) (length done)
      (mkWorld
         (mkFILE (flat_map (fun x => le_bytes 8 (fst x) ++ bytes_of_string (snd x)) todo
                  ++ body) fl e r)
         csv err st (Some (table_entries done)) sz buf hp)
    = Return (to_size_t sz)
        (mkWorld (mkFILE body fl e r) csv err st
                 (Some (table_entries (done ++ todo))) sz buf
                 (hp - description_bytes todo)).
Proof.
  intros done body fl e r csv err st sz buf hp Hok Hheap.
  pose proof (read_entries_prefix todo 0 done body fl e r csv err st sz buf hp
                Hok Hheap) as E.
  rewrite Nat.add_0_r in E. exact E.
Qed.

Lemma description_bytes_nonneg (table : list (Z * string)) :
  0 <= description_bytes table.
Proof. induction table as [| x xs IH]; cbn [description_bytes]; lia. Qed.

(** A well-formed header with enough heap: read_header stores the start
    time and every entry of the table, in order and whole, leaves the stream
    at the first batch, and returns the number of entries. *)
Lemma read_header_well_formed (w : world) (start : Z)
    (table : list (Z * string)) (body : list byte) :
  f_data (trace_file w)
    = encode_header start table (Z.of_nat (length table)) ++ body ->
  instant_range start ->
  Z.of_nat (length table) < 2 ^ 31 ->
  Forall entry_ok table ->
  sizeof_trace_record_t * Z.of_nat (length table) + description_bytes table
    <= heap w ->
  read_header w
    = Return (Z.of_nat (length table)) (after_header start table body w).
Proof.
  intros Hdata Hstart Hcount Hok Hheap.
  destruct w as [[data fl e r] csv err st tbl sz buf hp].
  cbn [trace_file f_data heap] in Hdata, Hheap. subst data.
  pose proof (description_bytes_nonneg table) as Hdb.
  unfold sizeof_trace_record_t in Hheap.
  unfold read_header, encode_header. cbn [trace_file]. rewrite <- !app_assoc.
  rewrite fread_prefix
    by (rewrite ?length_le_bytes; unfold sizeof_instant_t; cbn; lia).
  change (1 =? 1) with true. world_simpl.
  rewrite (decode_instant_le_bytes _ Hstart).
  rewrite fread_prefix
    by (rewrite ?length_le_bytes; unfold sizeof_int; cbn; lia).
  change (1 =? 1) with true. world_simpl.
  rewrite decode_int_le_bytes by (unfold int_range; lia).
  unfold calloc, malloc. world_simpl.
  assert (Hsz : to_size_t (Z.of_nat (length table)) = Z.of_nat (length table))
    by (unfold to_size_t; apply Z.mod_small; lia).
  rewrite Hsz. unfold sizeof_trace_record_t.
  destruct (Z.leb_spec (2 ^ 64) (Z.of_nat (length table) * 48)); [lia |].
  destruct (Z.leb_spec (Z.of_nat (length table) * 48) hp); [| lia].
  world_simpl. rewrite Nat2Z.id.
  pose proof (read_entries_well_formed table [] body fl e r csv err start
                (Z.of_nat (length table)) buf
                (hp - Z.of_nat (length table) * 48) Hok ltac:(lia)) as E.
  cbn [length app table_entries map] in E.
  refine (eq_trans E _). rewrite Hsz. unfold after_header. world_simpl.
  f_equal. f_equal. unfold sizeof_trace_record_t. lia.
Qed.

(** A header that declares a negative number of objects: the allocation of
    the table fails whatever the heap holds, read_header reports it, leaves
    the table null and returns -1, the largest [size_t]; the bytes after the
    count stay in the stream. *)
Lemma read_header_negative_count (w : world) (start count : Z)
    (rest : list byte) :
  f_data (trace_file w) = le_bytes 8 start ++ le_bytes 4 count ++ rest ->
  int_range count -> count < 0 ->
  exists w',
    read_header w = Return (2 ^ 64 - 1) w' /\
    object_descriptions w' = None /\
    object_descriptions_size w' = count /\
    stderr w' = stderr w ++ [MemoryAllocationFailure] /\
    csv_file w' = csv_file w /\ heap w' = heap w /\
    f_data (trace_file w') = rest.
Proof.
  intros Hdata Hrange Hneg.
  destruct w as [[data fl e r] csv err st tbl sz buf hp].
  cbn [trace_file f_data] in Hdata. subst data.
  unfold read_header. cbn [trace_file].
  rewrite fread_prefix
    by (rewrite ?length_le_bytes; unfold sizeof_instant_t; cbn; lia).
  change (1 =? 1) with true. world_simpl.
  rewrite fread_prefix
    by (rewrite ?length_le_bytes; unfold sizeof_int; cbn; lia).
  change (1 =? 1) with true. world_simpl.
  rewrite (decode_int_le_bytes _ Hrange).
  unfold calloc. world_simpl.
  assert (Hsz : to_size_t count = 2 ^ 64 + count).
  { unfold to_size_t, int_range in *.
    rewrite <- (Z.mod_add count 1 (2 ^ 64)) by lia.
    rewrite Z.mod_small by lia. lia. }
  rewrite Hsz. unfold sizeof_trace_record_t, int_range in *.
  destruct (Z.leb_spec (2 ^ 64) ((2 ^ 64 + count) * 48)); [| lia].
  eexists. split; [reflexivity |]. world_simpl. repeat split.
Qed.

(** ** A whole well-formed file *)

(** In a table read from a well-formed header every lookup ends on a text:
    a description of the table or the sentinel. *)
Lemma scan_descriptions_entries (table : list (Z * string)) :
  forall (n object : Z),
    n <= Z.of_nat (length table) ->
    exists d, scan_descriptions (table_entries table) n object = Some d.
Proof.
  induction table as [| x table IH]; intros n object Hn; cbn [length] in Hn;
    cbn [table_entries map scan_descriptions od_object od_description].
  - destruct (Z.leb_spec n 0); [eauto | lia].
  - destruct (Z.leb_spec n 0); [eauto |].
    destruct (fst x =? object); [eauto |].
    apply IH. lia.
Qed.

Lemma row_text_defined (w : world) (table : list (Z * string))
    (r : trace_record_t) :
  object_descriptions w = Some (table_entries table) ->
  object_descriptions_size w = Z.of_nat (length table) ->
  0 <= event_type r < Z.of_nat (length trace_event_names) ->
  row_text w r <> None.
Proof.
  intros Ht Hs He. unfold row_text, get_description. rewrite Ht, Hs.
  destruct (event_name_in_range trace_event_names _ He) as (event & _ & Hev).
  rewrite Hev.
  destruct (Z.leb_spec (Z.of_nat (length table)) 0); [discriminate |].
  destruct (scan_descriptions_entries table (Z.of_nat (length table))
              (self_struct r) ltac:(lia)) as (d & Hd).
  rewrite Hd. discriminate.
Qed.

Lemma rows_text_length (w : world) (rs : list trace_record_t) :
  Forall (fun r => row_text w r <> None) rs ->
  length (rows_text w rs) = length rs.
Proof.
  induction 1 as [| r rs Hr _ IH]; [reflexivity |].
  unfold rows_text in *. cbn [flat_map].
  destruct (row_text w r); [| contradiction].
  cbn [app length]. now rewrite IH.
Qed.

Lemma length_encode_batches (batches : list (list trace_record_t)) :
  (length batches <= length (encode_batches batches))%nat.
Proof.
  induction batches as [| rs batches IH]; [cbn; lia |].
  unfold encode_batches in *. cbn [flat_map length].
  unfold encode_batch at 1. rewrite !length_app, length_le_bytes. lia.
Qed.

(** The conversion of a well-formed file.  The file is a header with its
    table, followed by batches of records, each batch within the capacity
    and with the number of its records as its length; every field is a value
    of its C type, every event kind is an index of the name table, no
    description has a null character or more than 1023 characters, and the
    heap holds the table, the descriptions and four bytes for each reaction
    name.  Then main ends with status 0 and no diagnostic, and the output is
    the header line followed by one row for each record, in file order. *)
Lemma main_well_formed (start : Z) (table : list (Z * string))
    (batches : list (list trace_record_t)) (memory : Z) :
  0 <= TRACE_BUFFER_CAPACITY < 2 ^ 31 - 1 ->
  instant_range start ->
  Z.of_nat (length table) < 2 ^ 31 ->
  Forall entry_ok table ->
  Forall (fun rs => Z.of_nat (length rs) <= TRACE_BUFFER_CAPACITY) batches ->
  Forall record_in_range (concat batches) ->
  Forall (fun r => 0 <= event_type r < Z.of_nat (length trace_event_names))
         (concat batches) ->
  sizeof_trace_record_t * Z.of_nat (length table) + description_bytes table
    + reaction_bytes (concat batches) <= memory ->
  exists w',
    main (initial_world (stream (encode_file start table batches)) memory)
      = Some (Return 0 w') /\
    csv_file w'
      = csv_header
        :: rows_text (after_header start table [] (initial_world (stream []) memory))
                     (concat batches) /\
    length (csv_file w') = S (length (concat batches)) /\
    stderr w' = [].
Proof.
  intros Hcap Hstart Hcount Hok Hlen Hrange Hevents Hheap.
  pose proof (reaction_bytes_nonneg (concat batches)) as Hrb.
  set (w0 := initial_world (stream (encode_file start table batches)) memory).
  assert (E : read_header w0
              = Return (Z.of_nat (length table))
                       (after_header start table (encode_batches batches) w0)).
  { apply read_header_well_formed; try assumption; [reflexivity |].
    unfold w0, initial_world. cbn [heap]. lia. }
  rewrite (main_guard_holds _ _ _ _ _ _ E).
  set (w1 := fprintf_csv csv_header _).
  assert (Hrows : Forall (fun r => row_text w1 r <> None) (concat batches)).
  { eapply Forall_impl; [| exact Hevents]. intros r Hr.
    apply (row_text_defined w1 table r); [reflexivity | reflexivity | exact Hr]. }
  destruct (read_all_batches batches w1
              (S (length (f_data (trace_file
                   (after_header start table (encode_batches batches) w0))))))
    as (w' & Hrun & Hcsv & Herr & _ & Ht & _ & _ & _ & _);
    try assumption; try reflexivity.
  - unfold after_header. cbn [trace_file f_data].
    pose proof (length_encode_batches batches). lia.
  - unfold w1, after_header, w0, initial_world. cbn [heap fprintf_csv].
    unfold sizeof_trace_record_t in *. lia.
  - rewrite Hrun. cbn [bind]. unfold free_descriptions. rewrite Ht.
    exists w'. split.
    + unfold w1. cbn [object_descriptions fprintf_csv after_header].
      destruct (0 <? object_descriptions_size w'); reflexivity.
    + rewrite Hcsv, Herr.
      rewrite (rows_text_same_header
                 (after_header start table [] (initial_world (stream []) memory)) w1)
        by reflexivity.
      repeat split.
      change (csv_file w1) with [csv_header].
      cbn [app length]. f_equal.
      apply (rows_text_length w1 _ Hrows).
Qed.

(** ** Descriptions longer than the buffer *)

(** What the loop stores never exceeds the room left in [buffer], so the
    text and its terminating null fit the [BUFFER_SIZE] characters. *)
Lemma read_description_bounded (room : nat) :
  forall (character : byte) (f f' : FILE) (text : list byte),
    read_description room character f = (Some text, f') ->
    (length text <= room)%nat /\
    (length (f_data f') <= length (f_data f))%nat.
Proof.
  induction room as [| room IH]; intros character f f' text; cbn [read_description];
    destruct (byte_value character =? 0).
  - intros H; inversion H; subst. cbn. lia.
  - intros H; inversion H; subst. cbn. lia.
  - intros H; inversion H; subst. cbn. lia.
  - destruct (fread sizeof_char 1 f) as [[k bs] f1] eqn:Ef.
    destruct (negb (k =? 1)); [discriminate |].
    destruct (read_description room (hd x00 bs) f1) as [[t |] f2] eqn:Er;
      cbn [option_map]; intros H; inversion H; subst.
    apply IH in Er. destruct Er as (Hl & Hd).
    apply fread_bounds in Ef; [| unfold sizeof_char; lia | lia].
    destruct Ef as (_ & _ & Hf & _). cbn [length]. lia.
Qed.

(** A text of more characters than the room left, none of them null: the
    loop stores as many characters as there is room for, and the character
    it has read when the room runs out is consumed and lost. *)
Lemma read_description_long (room : nat) :
  forall (d : byte) (ds rest : list byte) (a b c : bool),
    Forall (fun x => byte_value x <> 0) (d :: ds) ->
    (room < length (d :: ds))%nat ->
    read_description room d (mkFILE (ds ++ rest) a b c)
      = (Some (firstn room (d :: ds)),
         mkFILE (skipn (S room) ((d :: ds) ++ rest)) a b c).
Proof.
  induction room as [| room IH]; intros d ds rest a b c Hnz Hlen;
    inversion Hnz as [| x xs Hd Hds]; subst x xs;
    cbn [read_description];
    (destruct (Z.eqb_spec (byte_value d) 0) as [E | _]; [contradiction |]).
  - reflexivity.
  - destruct ds as [| d2 ds]; [cbn [length] in Hlen; lia |].
    change ((d2 :: ds) ++ rest) with ([d2] ++ (ds ++ rest)).
    rewrite fread_prefix by (cbn; unfold sizeof_char; lia).
    change (1 =? 1) with true. cbn [negb hd].
    rewrite (IH d2 ds rest a b c Hds) by (cbn [length] in *; lia).
    reflexivity.
Qed.

(** ** Lookups that hit *)

(** The first entry for an object wins: a lookup returns the description of
    the first entry of the table whose object it is, whatever follows. *)
Lemma get_description_first_match (w : world)
    (before after : list object_description_t) (e : object_description_t) :
  object_descriptions w = Some (before ++ e :: after) ->
  Z.of_nat (length before) < object_descriptions_size w ->
  Forall (fun x => od_object x <> od_object e) before ->
  get_description w (od_object e) = inr (od_description e).
Proof.
  intros Ht Hn Hbefore. unfold get_description. rewrite Ht.
  destruct (Z.leb_spec (object_descriptions_size w) 0); [lia |].
  f_equal. clear Ht. revert Hn. generalize (object_descriptions_size w) as n.
  induction Hbefore as [| x before Hx _ IH]; intros n Hn;
    cbn [app scan_descriptions length] in *.
  - destruct (Z.leb_spec n 0); [lia |]. now rewrite Z.eqb_refl.
  - destruct (Z.leb_spec n 0); [lia |].
    destruct (Z.eqb_spec (od_object x) (od_object e)); [contradiction |].
    apply IH. lia.
Qed.

(** ** What read_trace leaves alone, and what it uses up *)

Lemma write_lines_appends (n : nat) : forall (i : Z) (w : world),
  exists rows,
    csv_file (final_world (write_lines n i w)) = csv_file w ++ rows /\
    (length rows <= n)%nat /\
    heap (final_world (write_lines n i w)) <= heap w.
Proof.
  induction n as [| n IH]; intros i w.
  - exists []. cbn. rewrite app_nil_r. repeat split; lia.
  - rewrite write_lines_step.
    destruct (write_line i w) as [[] w1 | s w1 | f w1] eqn:E; cbn [bind final_world].
    + destruct (write_line_returns _ _ _ _ E) as (ev & d & nm & w0 & Hn & _ & _ & ->).
      destruct (IH (i + 1)
                  (fprintf_csv
                     (csv_line ev d nm (worker (trace_record w i))
                        (sub_instant (logical_time (trace_record w i)) (start_time w))
                        (microstep (trace_record w i))
                        (sub_instant (physical_time (trace_record w i)) (start_time w)))
                     w0)) as (rows & Hc & Hl & Hh).
      cbv zeta in Hn.
      assert (Hw0 : csv_file w0 = csv_file w /\ heap w0 <= heap w).
      { destruct (reaction_name_cases (trace_record w i) w)
          as [(_ & E1) | [(_ & _ & E1) | (_ & _ & E1)]];
          rewrite E1 in Hn; inversion Hn; subst; cbn; split; try reflexivity; lia. }
      destruct Hw0 as (Hc0 & Hh0).
      eexists (_ :: rows). rewrite Hc. cbn [csv_file fprintf_csv heap] in *.
      rewrite Hc0, <- app_assoc. repeat split; cbn [length app]; lia.
    + exfalso. apply (proj2 (write_line_same_input trace_event_names i w) s w1 E).
    + exists []. rewrite app_nil_r.
      assert (Hf : csv_file w1 = csv_file w /\ heap w1 <= heap w).
      { revert E. unfold write_line.
        destruct (reaction_name_cases (trace_record w i) w)
          as [(_ & E1) | [(_ & _ & E1) | (_ & _ & E1)]]; rewrite E1; cbn [bind];
          repeat match goal with
                 | |- context [match ?x with _ => _ end] => destruct x
                 end;
          intros H; inversion H; subst; cbn; split; try reflexivity; lia. }
      destruct Hf. repeat split; cbn [length]; try assumption; lia.
Qed.

(** However a call of read_trace ends, the start time and the symbol table
    are what they were, the output written before is still there with at
    most as many rows added as the batch declares, and the heap has not
    grown. *)
Lemma read_trace_keeps_header (w : world) :
  start_time (final_world (read_trace w)) = start_time w /\
  object_descriptions (final_world (read_trace w)) = object_descriptions w /\
  object_descriptions_size (final_world (read_trace w))
    = object_descriptions_size w /\
  (exists rows,
     csv_file (final_world (read_trace w)) = csv_file w ++ rows /\
     Z.of_nat (length rows) <= Z.max 0 (batch_length w)) /\
  heap (final_world (read_trace w)) <= heap w.
Proof.
  assert (Hnil : exists rows : list string,
             csv_file w = csv_file w ++ rows /\
             Z.of_nat (length rows) <= Z.max 0 (batch_length w)).
  { exists []. rewrite app_nil_r. split; [reflexivity | apply Z.le_max_l]. }
  destruct (Z.lt_ge_cases (bytes_left w) 4) as [Hs | Hl].
  - rewrite (read_trace_short _ _ w Hs).
    destruct (feof _); cbn [final_world]; unfold at_end; world_simpl;
      repeat split; try assumption; lia.
  - rewrite (read_trace_length_read _ _ w Hl).
    destruct (batch_length w >? TRACE_BUFFER_CAPACITY);
      [cbn [final_world]; unfold after_length; world_simpl;
       repeat split; try assumption; lia |].
    destruct (fread _ _ _) as [[n bs] f]. cbv zeta.
    destruct (Z.of_nat (length bs) >? _);
      [cbn [final_world]; unfold after_length; world_simpl;
       repeat split; try assumption; lia |].
    set (w2 := set_trace _ _).
    pose proof (write_lines_same_input trace_event_names
                  (Z.to_nat (batch_length w)) 0 w2) as ((_ & _ & Hst & Ht & Hsz & _) & _).
    destruct (write_lines_appends (Z.to_nat (batch_length w)) 0 w2)
      as (rows & Hc & Hlen & Hh).
    assert (Hfw : final_world
                    (do (_, w3) <- write_lines (Z.to_nat (batch_length w)) 0 w2;
                     Return (to_size_t (wrap 32 (1 + n))) w3)
                  = final_world (write_lines (Z.to_nat (batch_length w)) 0 w2)).
    { destruct (write_lines _ _ _); reflexivity. }
    rewrite Hfw, Hst, Ht, Hsz. repeat split; try exact Hh.
    exists rows. split; [exact Hc | lia].
Qed.

Lemma fread_items (size nmemb : Z) (f : FILE) n bs f' :
  0 < size -> 0 <= nmemb ->
  fread size nmemb f = (n, bs, f') ->
  n = Z.min nmemb (Z.of_nat (length (f_data f)) / size).
Proof.
  intros Hs Hn. unfold fread.
  assert (Hq : 0 <= Z.of_nat (length (f_data f)) / size) by (apply Z.div_pos; lia).
  destruct (Z.eqb_spec (size * nmemb) 0) as [E | NE].
  - intros H; injection H as <- _ _. assert (nmemb = 0) by nia. lia.
  - destruct (Z.leb_spec (size * nmemb) (Z.of_nat (length (f_data f)))) as [L | G];
      intros H; injection H as <- _ _.
    + assert (nmemb <= Z.of_nat (length (f_data f)) / size)
        by (apply Z.div_le_lower_bound; lia).
      lia.
    + assert (Z.of_nat (length (f_data f)) / size < nmemb)
        by (apply Z.div_lt_upper_bound; lia).
      lia.
Qed.

(** A call that returns: its value is one, for the length field, plus the
    number of complete records the file still held for the batch, which is
    the declared length or less; the rows written are as many as the length
    declares even when fewer records were in the file. *)
Lemma read_trace_counts_complete_records (w w' : world) (r : Z) :
  0 <= TRACE_BUFFER_CAPACITY < 2 ^ 31 - 1 ->
  4 <= bytes_left w -> 0 <= batch_length w ->
  read_trace w = Return r w' ->
  r = 1 + Z.min (batch_length w) ((bytes_left w - 4) / sizeof_trace_record_t) /\
  exists rows,
    csv_file w' = csv_file w ++ rows /\
    Z.of_nat (length rows) = batch_length w.
Proof.
  intros Hcap Hl Hn H.
  destruct (read_trace_return_value _ _ _ _ _ Hcap Hl H) as (n & bs & f & Ef & Hr & _).
  destruct (read_trace_returns _ _ _ _ _ Hl H) as (n' & bs' & f' & _ & Hle & _ & Hw & _).
  assert (Hsz : to_size_t (batch_length w) = batch_length w)
    by (unfold to_size_t; apply Z.mod_small; lia).
  rewrite Hsz in Ef.
  apply fread_items in Ef; [| unfold sizeof_trace_record_t; lia | exact Hn].
  split.
  - rewrite Hr, Ef. f_equal. f_equal. f_equal.
    unfold advanced, bytes_left in *. cbn [f_data]. rewrite length_skipn. lia.
  - destruct (write_lines_returns _ _ _ _ _ Hw) as (rows & Hc & Hlen & _).
    exists rows. split; [exact Hc | lia].
Qed.

(** The reaction names are never freed: a loop that runs to its end has
    taken from the heap four bytes for each record with a reaction. *)
Lemma write_lines_heap (n : nat) : forall (i : Z) (w w' : world),
  write_lines n i w = Return tt w' ->
  heap w' = heap w - reaction_bytes (buffered_records w i n).
Proof.
  induction n as [| n IH]; intros i w w' H.
  - inversion H; subst. cbn. lia.
  - rewrite write_lines_step in H. rewrite buffered_records_step.
    pose proof (write_line_same_input trace_event_names i w) as (Hs & _).
    destruct (write_line i w) as [[] w1 | |] eqn:E; try discriminate.
    cbn [bind final_world] in *.
    destruct (write_line_returns _ _ _ _ E) as (ev & d & nm & w0 & Hn & _ & _ & Hw1).
    cbv zeta in Hn. rewrite (IH _ _ _ H).
    assert (Hb : buffered_records w1 (i + 1) n = buffered_records w (i + 1) n).
    { unfold buffered_records. apply map_ext. intros k.
      apply (trace_record_same_input _ _ _ Hs). }
    rewrite Hb. cbn [reaction_bytes].
    assert (Hh : heap w1 = heap w - (if 0 <=? reaction_number (trace_record w i)
                                     then 4 else 0)).
    { rewrite Hw1. cbn [heap fprintf_csv].
      destruct (reaction_name_cases (trace_record w i) w)
        as [(Hneg & E1) | [(Hpos & _ & E1) | (_ & _ & E1)]];
        rewrite E1 in Hn;
        [injection Hn as _ <- | injection Hn as _ <- | discriminate Hn].
      - destruct (Z.leb_spec 0 (reaction_number (trace_record w i))); lia.
      - destruct (Z.leb_spec 0 (reaction_number (trace_record w i)));
          cbn [heap set_heap]; lia. }
    lia.
Qed.

(** A call of read_trace that returns leaves the heap smaller by four bytes
    for each record of the batch that has a reaction. *)
Lemma read_trace_heap (w w' : world) (r : Z) :
  4 <= bytes_left w -> read_trace w = Return r w' ->
  heap w' = heap w
            - reaction_bytes (buffered_records w' 0 (Z.to_nat (batch_length w))).
Proof.
  intros Hl H.
  destruct (read_trace_returns _ _ _ _ _ Hl H) as (n & bs & f & _ & _ & _ & Hw & _).
  pose proof (write_lines_same_input trace_event_names
                (Z.to_nat (batch_length w)) 0
                (set_trace (overwrite bs (trace w)) (set_trace_file f (after_length w))))
    as (Hs & _).
  rewrite Hw in Hs. cbn [final_world] in Hs.
  rewrite (write_lines_heap _ _ _ _ Hw).
  assert (Hb : buffered_records w' 0 (Z.to_nat (batch_length w))
               = buffered_records
                   (set_trace (overwrite bs (trace w)) (set_trace_file f (after_length w)))
                   0 (Z.to_nat (batch_length w))).
  { unfold buffered_records. apply map_ext. intros k.
    apply (trace_record_same_input _ _ _ Hs). }
  rewrite Hb. reflexivity.
Qed.

(** ** Headers that cannot be read whole *)

(** A header that declares more entries than the file holds: after the
    entries that are there, the read of the next object fails and
    read_header leaves through the failure macro, with the entries read so
    far in the table. *)
Lemma read_header_table_cut_short (w : world) (start count : Z)
    (table : list (Z * string)) (tail : list byte) :
  f_data (trace_file w) = encode_header start table count ++ tail ->
  Z.of_nat (length tail) < 8 ->
  instant_range start ->
  Z.of_nat (length table) < count < 2 ^ 31 ->
  Forall entry_ok table ->
  sizeof_trace_record_t * count + description_bytes table <= heap w ->
  exists w1,
    read_header w = trace_failure LF_TRACE_FAILURE w1 /\
    start_time w1 = start /\
    object_descriptions w1 = Some (table_entries table) /\
    object_descriptions_size w1 = count /\
    f_data (trace_file w1) = [] /\ csv_file w1 = csv_file w.
Proof.
  intros Hdata Htail Hstart Hcount Hok Hheap.
  destruct w as [[data fl e r] csv err st tbl sz buf hp].
  cbn [trace_file f_data heap] in Hdata, Hheap. subst data.
  pose proof (description_bytes_nonneg table) as Hdb.
  unfold sizeof_trace_record_t in Hheap.
  unfold read_header, encode_header. cbn [trace_file]. rewrite <- !app_assoc.
  rewrite fread_prefix
    by (rewrite ?length_le_bytes; unfold sizeof_instant_t; cbn; lia).
  change (1 =? 1) with true. world_simpl.
  rewrite (decode_instant_le_bytes _ Hstart).
  rewrite fread_prefix
    by (rewrite ?length_le_bytes; unfold sizeof_int; cbn; lia).
  change (1 =? 1) with true. world_simpl.
  rewrite decode_int_le_bytes by (unfold int_range; lia).
  unfold calloc, malloc. world_simpl.
  assert (Hsz : to_size_t count = count)
    by (unfold to_size_t; apply Z.mod_small; lia).
  rewrite Hsz. unfold sizeof_trace_record_t.
  destruct (Z.leb_spec (2 ^ 64) (count * 48)); [lia |].
  destruct (Z.leb_spec (count * 48) hp); [| lia].
  world_simpl.
  replace (Z.to_nat count)
    with (length table + S (Z.to_nat count - length table - 1))%nat by lia.
  pose proof (read_entries_prefix table (S (Z.to_nat count - length table - 1)) []
                tail fl e r csv err start count buf (hp - count * 48) Hok
                ltac:(lia)) as E.
  cbn [length app table_entries map] in E. refine (ex_intro _ _ _).
  split; [refine (eq_trans E _) |].
  - cbn [read_entries trace_file].
    rewrite fread_one_short by (unfold sizeof_pointer; cbn [f_data]; lia).
    change (0 =? 1) with false. cbn [negb]. reflexivity.
  - unfold drained. world_simpl. repeat split.
Qed.

(** The allocation of a description is not checked: when the heap holds the
    table and the descriptions before it but not the description itself,
    read_header copies the text through the null pointer [malloc] returned. *)
Lemma read_header_description_unallocated (w : world) (start : Z)
    (good more : list (Z * string)) (object : Z) (s : string)
    (body : list byte) :
  f_data (trace_file w)
    = encode_header start (good ++ (object, s) :: more)
        (Z.of_nat (length (good ++ (object, s) :: more))) ++ body ->
  instant_range start ->
  Z.of_nat (length (good ++ (object, s) :: more)) < 2 ^ 31 ->
  Forall entry_ok good -> entry_ok (object, s) ->
  sizeof_trace_record_t * Z.of_nat (length (good ++ (object, s) :: more))
    + description_bytes good <= heap w ->
  heap w < sizeof_trace_record_t * Z.of_nat (length (good ++ (object, s) :: more))
           + description_bytes good + strlen s + 1 ->
  exists w1,
    read_header w = Undefined NullPointer w1 /\
    object_descriptions w1
      = Some (table_entries good ++ [mkDescription object None]).
Proof.
  intros Hdata Hstart Hcount Hok (Hobj & Hlen & Hnz) Hheap Hshort.
  cbn [fst snd] in Hobj, Hlen, Hnz. unfold strlen in Hshort.
  destruct w as [[data fl e r] csv err st tbl sz buf hp].
  cbn [trace_file f_data heap] in Hdata, Hheap, Hshort. subst data.
  set (n := Z.of_nat (length (good ++ (object, s) :: more))) in *.
  pose proof (description_bytes_nonneg good) as Hdb.
  unfold sizeof_trace_record_t in Hheap, Hshort.
  unfold read_header, encode_header. cbn [trace_file]. rewrite <- !app_assoc.
  rewrite fread_prefix
    by (rewrite ?length_le_bytes; unfold sizeof_instant_t; cbn; lia).
  change (1 =? 1) with true. world_simpl.
  rewrite (decode_instant_le_bytes _ Hstart).
  rewrite fread_prefix
    by (rewrite ?length_le_bytes; unfold sizeof_int; cbn; lia).
  change (1 =? 1) with true. world_simpl.
  rewrite decode_int_le_bytes by (unfold int_range; lia).
  unfold calloc, malloc. world_simpl.
  assert (Hsz : to_size_t n = n) by (unfold to_size_t; apply Z.mod_small; lia).
  rewrite Hsz. unfold sizeof_trace_record_t.
  destruct (Z.leb_spec (2 ^ 64) (n * 48)); [lia |].
  destruct (Z.leb_spec (n * 48) hp); [| lia].
  world_simpl.
  replace (Z.to_nat n) with (length good + S (length more))%nat
    by (unfold n; rewrite Nat2Z.id, length_app; cbn [length]; lia).
  rewrite flat_map_app. cbn [flat_map fst snd]. rewrite <- !app_assoc.
  pose proof (read_entries_prefix good (S (length more)) []
                (le_bytes 8 object ++ bytes_of_string s ++
                 flat_map (fun x => le_bytes 8 (fst x) ++ bytes_of_string (snd x)) more
                 ++ body)
                fl e r csv err start n buf (hp - n * 48) Hok ltac:(lia)) as E.
  cbn [length app table_entries map] in E. refine (ex_intro _ _ _).
  split; [refine (eq_trans E _) |].
  - rewrite <- (length_table_entries good).
    cbn [Nat.add read_entries trace_file].
    rewrite fread_prefix
      by (rewrite ?length_le_bytes; unfold sizeof_pointer; cbn; lia).
    change (1 =? 1) with true. world_simpl.
    rewrite (decode_pointer_le_bytes _ Hobj), update_entry_append.
    unfold bytes_of_string. rewrite <- !app_assoc. cbn [app].
    set (ds := map byte_of_ascii (list_ascii_of_string s)).
    rewrite (first_and_rest ds), fread_prefix by (cbn; unfold sizeof_char; lia).
    change (1 =? 1) with true. world_simpl. cbn [hd].
    assert (Hds : Forall (fun d => byte_value d <> 0) ds).
    { unfold ds. apply Forall_map. eapply Forall_impl; [| exact Hnz].
      intros c. apply byte_of_ascii_nonzero. }
    assert (Hdl : length ds = String.length s).
    { unfold ds. now rewrite length_map, length_list_ascii. }
    rewrite read_description_text;
      [| exact Hds | unfold BUFFER_SIZE in *; lia].
    world_simpl. unfold malloc. world_simpl. rewrite Hdl.
    destruct (Z.leb_spec (Z.of_nat (String.length s) + 1)
                (hp - n * 48 - description_bytes good)) as [L | _]; [lia |].
    reflexivity.
  - world_simpl. cbn [od_description]. reflexivity.
Qed.

End Coverage.

(** ** The file names *)

(** Whatever [argv\[1\]] is, each array main builds a file name in is one
    character short: the root fits, but appending the four characters of the
    extension and the terminating null writes one character past the end.
    An array of one more character would hold the name. *)
Lemma file_name_overflows (root : string) :
  file_name root ".lft" = inl BufferOverflow /\
  file_name root ".csv" = inl BufferOverflow /\
  strcpy (strlen root + 4) root = inr root /\
  strcat (strlen root + 5) root ".lft" = inr (root ++ ".lft")%string.
Proof.
  unfold file_name, strcpy, strcat.
  change (strlen ".lft") with 4. change (strlen ".csv") with 4.
  destruct (Z.leb_spec (strlen root + 1) (strlen root + 4)); [| lia].
  destruct (Z.leb_spec (strlen root + 4 + 1) (strlen root + 4)); [lia |].
  destruct (Z.leb_spec (strlen root + 4 + 1) (strlen root + 5)); [| lia].
  repeat split.
Qed.

(** ** Round trips *)

(** A record laid out as the file format has it, each field a value of its C
    type, is read from the record buffer with the same fields, whatever
    follows it in memory. *)
Theorem record_round_trip (r : trace_record_t) (mem : list byte) :
  record_in_range r ->
  decode_record (slice 0 48 (encode_record r ++ mem)) = r.
Proof. apply decode_encode_record. Qed.

(** A header written as the file format has it is read back whole: for a
    start time and a table of objects with descriptions of at most 1023
    characters, none of them null, and with the heap for the table and the
    descriptions, read_header returns the number of entries, stores the start
    time and the entries in order, and leaves the stream at the first batch. *)
Theorem read_header_round_trip (LF_TRACE_FAILURE : world -> outcome Z)
    (w : world) (start : Z) (table : list (Z * string)) (body : list byte) :
  f_data (trace_file w)
    = encode_header start table (Z.of_nat (length table)) ++ body ->
  instant_range start ->
  Z.of_nat (length table) < 2 ^ 31 ->
  Forall entry_ok table ->
  sizeof_trace_record_t * Z.of_nat (length table) + description_bytes table
    <= heap w ->
  read_header LF_TRACE_FAILURE w
    = Return (Z.of_nat (length table)) (after_header start table body w).
Proof. apply read_header_well_formed. Qed.

(** A batch written as the file format has it, within the capacity, with
    every row defined and the heap for the reaction names: read_trace
    consumes exactly the batch, writes the rows of its records in order,
    takes four bytes of heap for each reaction name and returns the number of
    records plus one. *)
Theorem batch_rows (TRACE_BUFFER_CAPACITY : Z) (trace_event_names : list string)
    (w : world) (rs : list trace_record_t) (rest : list byte) :
  0 <= TRACE_BUFFER_CAPACITY < 2 ^ 31 - 1 ->
  Z.of_nat (length rs) <= TRACE_BUFFER_CAPACITY ->
  f_data (trace_file w) = encode_batch (Z.of_nat (length rs)) rs ++ rest ->
  Forall record_in_range rs ->
  Forall (fun r => row_text trace_event_names w r <> None) rs ->
  reaction_bytes rs <= heap w ->
  read_trace TRACE_BUFFER_CAPACITY trace_event_names w
    = Return (Z.of_nat (length rs) + 1)
             (with_rows (rows_text trace_event_names w rs) (reaction_bytes rs)
                        (after_batch rs rest w)).
Proof. apply read_trace_well_formed_batch. Qed.

(** The test [read_header(trace_file) >= 0] of main never fails: whatever
    value read_header returns, the -1 of a failure included, main writes the
    header line and runs the loop over the batches. *)
Theorem header_guard_always_holds (TRACE_BUFFER_CAPACITY : Z)
    (trace_event_names : list string) (LF_TRACE_FAILURE : world -> outcome Z)
    (w w1 : world) (r : Z) :
  read_header LF_TRACE_FAILURE w = Return r w1 ->
  0 <= r /\
  main TRACE_BUFFER_CAPACITY trace_event_names LF_TRACE_FAILURE w =
    match read_all TRACE_BUFFER_CAPACITY trace_event_names
            (S (length (f_data (trace_file w1)))) (fprintf_csv csv_header w1) with
    | None => None
    | Some o => Some (do (_, w2) <- o; do (_, w3) <- free_descriptions w2; Return 0 w3)
    end.
Proof.
  intros H. split.
  - apply (read_header_nonneg _ _ _ _ H).
  - apply (main_guard_holds _ _ _ _ _ _ H).
Qed.

(** The loop of main ends on every input: each call of read_trace that does
    not end it has consumed a batch length, so main reaches an outcome with
    the calls it allows itself, one more than there are bytes after the
    header. *)
Theorem main_terminates (TRACE_BUFFER_CAPACITY : Z)
    (trace_event_names : list string) (LF_TRACE_FAILURE : world -> outcome Z)
    (w : world) :
  (exists o, main TRACE_BUFFER_CAPACITY trace_event_names LF_TRACE_FAILURE w = Some o) /\
  (forall w0 w' r,
     read_trace TRACE_BUFFER_CAPACITY trace_event_names w0 = Return r w' ->
     r <> 0 -> bytes_left w' + 4 <= bytes_left w0).
Proof.
  split; [apply main_total |].
  intros w0 w' r H Hr.
  destruct (Z.lt_ge_cases (bytes_left w0) 4) as [Hs | Hl].
  - rewrite (read_trace_short _ _ w0 Hs) in H.
    destruct (feof _); inversion H; subst; lia.
  - destruct (read_trace_returns _ _ _ _ _ Hl H) as (n & bs & f & Ef & _ & _ & Hw & _).
    apply fread_bounds in Ef;
      [| unfold sizeof_trace_record_t; lia | apply to_size_t_nonneg].
    destruct Ef as (_ & _ & Hlen & _).
    pose proof (write_lines_same_input trace_event_names
                  (Z.to_nat (batch_length w0)) 0
                  (set_trace (overwrite bs (trace w0))
                             (set_trace_file f (after_length w0))))
      as ((Hf & _) & _).
    rewrite Hw in Hf. cbn [final_world] in Hf.
    unfold bytes_left in *. rewrite Hf.
    unfold after_length, advanced in *.
    cbn [trace_file set_trace set_trace_file f_data] in *.
    rewrite length_skipn in Hlen. lia.
Qed.

(** ** The further properties on the sample inputs *)

Lemma sample_table_ok : Forall entry_ok sample_table.
Proof.
  repeat constructor; cbn; try lia; discriminate.
Qed.

(* Closes the range conditions of the sample records. *)
Ltac in_range :=
  unfold record_in_range, int_range, instant_range, pointer_range,
         sample_record, stray_record, busy_record, extreme_record, reactor_a;
  cbn [event_type self_struct reaction_number worker logical_time microstep
       physical_time];
  lia.

Lemma sample_batches_in_range : Forall record_in_range (concat sample_batches).
Proof.
  unfold sample_batches. cbn [concat app].
  repeat apply Forall_cons; try apply Forall_nil; in_range.
Qed.

Lemma main_well_formed_witness :
  exists w',
    main sample_capacity sample_event_names sample_failure
         (initial_world (stream (encode_file 1000 sample_table sample_batches)) 4096)
      = Some (Return 0 w') /\
    length (csv_file w') = 5%nat /\ stderr w' = [].
Proof.
  destruct (main_well_formed sample_capacity sample_event_names sample_failure
              1000 sample_table sample_batches 4096)
    as (w' & Hrun & _ & Hlen & Herr).
  - unfold sample_capacity. lia.
  - unfold instant_range. lia.
  - cbn. lia.
  - exact sample_table_ok.
  - repeat apply Forall_cons; try apply Forall_nil; unfold sample_capacity;
      cbn [length]; lia.
  - exact sample_batches_in_range.
  - unfold sample_batches. cbn [concat app].
    repeat apply Forall_cons; try apply Forall_nil;
      vm_compute; (split; [discriminate | reflexivity]).
  - vm_compute. discriminate.
  - exists w'. repeat split; assumption.
Defined.

Lemma read_header_round_trip_witness :
  read_header sample_failure (initial_world (stream minimal_file) 4096)
    = Return 1 (after_header 1000 sample_table (encode_batch 1 [sample_record])
                             (initial_world (stream minimal_file) 4096)).
Proof.
  apply (read_header_round_trip sample_failure
           (initial_world (stream minimal_file) 4096) 1000 sample_table
           (encode_batch 1 [sample_record])).
  - reflexivity.
  - unfold instant_range. lia.
  - cbn. lia.
  - exact sample_table_ok.
  - vm_compute. discriminate.
Defined.

Lemma batch_rows_witness :
  read_trace sample_capacity sample_event_names one_record_world
    = Return 2
        (with_rows (rows_text sample_event_names one_record_world [sample_record])
                   0 (after_batch [sample_record] [] one_record_world)).
Proof.
  apply (batch_rows sample_capacity sample_event_names
           one_record_world [sample_record] []).
  - unfold sample_capacity. lia.
  - unfold sample_capacity. cbn. lia.
  - reflexivity.
  - repeat apply Forall_cons; try apply Forall_nil; in_range.
  - repeat apply Forall_cons; try apply Forall_nil. vm_compute. discriminate.
  - vm_compute. discriminate.
Defined.

Lemma read_header_negative_count_witness :
  exists w',
    read_header sample_failure (initial_world (stream negative_count_file) 4096)
      = Return (2 ^ 64 - 1) w' /\
    object_descriptions w' = None /\
    stderr w' = [MemoryAllocationFailure].
Proof.
  destruct (read_header_negative_count sample_failure
              (initial_world (stream negative_count_file) 4096)
              1000 (-1) (encode_batch 1 [sample_record]))
    as (w' & Hrun & Ht & _ & Herr & _).
  - reflexivity.
  - unfold int_range. lia.
  - lia.
  - exists w'. repeat split; assumption.
Defined.

Lemma read_description_bounded_witness :
  read_description 3 x41 long_text_stream
    = (Some [x41; x42; x43], stream [x45; x00; x01]) /\
  (length [x41; x42; x43] <= 3)%nat.
Proof.
  assert (E : read_description 3 x41 long_text_stream
              = (Some [x41; x42; x43], stream [x45; x00; x01])) by reflexivity.
  split; [exact E |].
  exact (proj1 (read_description_bounded 3 x41 long_text_stream _ _ E)).
Defined.

Lemma read_description_long_witness :
  read_description 3 x41 (stream ([x42; x43; x44; x45] ++ [x00; x01]))
    = (Some [x41; x42; x43], stream [x45; x00; x01]).
Proof.
  apply (read_description_long 3 x41 [x42; x43; x44; x45] [x00; x01]
           false false false).
  - repeat constructor; discriminate.
  - cbn. lia.
Defined.

Lemma get_description_first_match_witness :
  get_description twin_world reactor_a = inr (Some "first"%string).
Proof.
  apply (get_description_first_match twin_world
           [mkDescription 8192 (Some "other"%string)]
           [mkDescription reactor_a (Some "second"%string)]
           (mkDescription reactor_a (Some "first"%string))).
  - reflexivity.
  - cbn. lia.
  - repeat constructor. discriminate.
Defined.

Lemma read_trace_heap_witness :
  heap (final_world (read_trace sample_capacity sample_event_names two_records_world))
    = heap two_records_world - 4.
Proof.
  assert (Hl : 4 <= bytes_left two_records_world) by (vm_compute; discriminate).
  assert (Hr : read_trace sample_capacity sample_event_names two_records_world
               = Return 3 (final_world
                    (read_trace sample_capacity sample_event_names two_records_world)))
    by (vm_compute; reflexivity).
  rewrite (read_trace_heap sample_capacity sample_event_names _ _ _ Hl Hr).
  vm_compute. reflexivity.
Defined.

Lemma read_trace_counts_complete_records_witness :
  batch_length short_block_world = 3 /\
  bytes_left short_block_world = 52 /\
  exists w' rows,
    read_trace sample_capacity sample_event_names short_block_world = Return 2 w' /\
    csv_file w' = csv_file short_block_world ++ rows /\
    Z.of_nat (length rows) = 3.
Proof.
  assert (Hcap : 0 <= sample_capacity < 2 ^ 31 - 1) by (unfold sample_capacity; lia).
  assert (Hl : 4 <= bytes_left short_block_world) by (vm_compute; discriminate).
  assert (Hn : 0 <= batch_length short_block_world) by (vm_compute; discriminate).
  assert (Hr : read_trace sample_capacity sample_event_names short_block_world
               = Return 2 (final_world
                    (read_trace sample_capacity sample_event_names short_block_world)))
    by (vm_compute; reflexivity).
  split; [reflexivity |]. split; [reflexivity |].
  destruct (read_trace_counts_complete_records
              sample_capacity sample_event_names _ _ _ Hcap Hl Hn Hr)
    as (_ & rows & Hc & Hlen).
  eexists _, rows. split; [exact Hr |]. split; [exact Hc | exact Hlen].
Defined.

Lemma header_guard_always_holds_witness :
  exists w1 o,
    read_header sample_failure (initial_world (stream negative_count_file) 4096)
      = Return (2 ^ 64 - 1) w1 /\
    main sample_capacity sample_event_names sample_failure
         (initial_world (stream negative_count_file) 4096) = Some o /\
    hd EmptyString (csv_file (final_world o)) = csv_header.
Proof.
  assert (E : read_header sample_failure
                (initial_world (stream negative_count_file) 4096)
              = Return (2 ^ 64 - 1)
                  (final_world
                     (read_header sample_failure
                        (initial_world (stream negative_count_file) 4096))))
    by (vm_compute; reflexivity).
  eexists _, _. split; [exact E |].
  rewrite (proj2 (header_guard_always_holds
                    sample_capacity sample_event_names sample_failure _ _ _ E)).
  split; vm_compute; reflexivity.
Defined.

Lemma record_round_trip_witness :
  decode_record (slice 0 48 (encode_record extreme_record ++ [x01; x02]))
    = extreme_record.
Proof.
  apply record_round_trip. in_range.
Defined.

Lemma read_header_table_cut_short_witness :
  exists w1,
    read_header sample_failure
      (initial_world (stream (encode_header 1000 sample_table 2)) 4096)
      = Return (2 ^ 64 - 1) w1 /\
    object_descriptions w1 = Some (table_entries sample_table) /\
    object_descriptions_size w1 = 2.
Proof.
  destruct (read_header_table_cut_short sample_failure
              (initial_world (stream (encode_header 1000 sample_table 2)) 4096)
              1000 2 sample_table [])
    as (w1 & Hrun & _ & Ht & Hs & _).
  - reflexivity.
  - cbn. lia.
  - unfold instant_range. lia.
  - cbn. lia.
  - exact sample_table_ok.
  - vm_compute. discriminate.
  - exists w1. split; [exact Hrun |]. split; assumption.
Defined.

Lemma read_header_description_unallocated_witness :
  exists w1,
    read_header sample_failure (initial_world (stream minimal_file) 50)
      = Undefined NullPointer w1 /\
    object_descriptions w1 = Some [mkDescription reactor_a None].
Proof.
  destruct (read_header_description_unallocated sample_failure
              (initial_world (stream minimal_file) 50) 1000 [] [] reactor_a
              "Reactor_A"%string (encode_batch 1 [sample_record]))
    as (w1 & Hrun & Ht).
  - reflexivity.
  - unfold instant_range. lia.
  - cbn. lia.
  - constructor.
  - repeat constructor; cbn; try lia; discriminate.
  - vm_compute. discriminate.
  - vm_compute. reflexivity.
  - exists w1. split; assumption.
Defined.
